(** * FLAMEGPU2 device runtime: error reporter, variable accessors,
      agent output and array messaging

    A shallow embedding of
    - [include/flamegpu/exception/FGPUDeviceException_device.h]
    - [include/flamegpu/runtime/DeviceAPI.h]
    - [include/flamegpu/runtime/messaging/Array.h]

    Device memory is explicit state.  Unsigned 32-bit values are [Z] with
    the wrap-around written out; buffers are lists indexed with stdpp's
    lookup and insert; the cuRVE binding table is a [gmap]. *)

From Stdlib Require Import ZArith.
From Stdlib.Strings Require Import Byte.
From stdpp Require Import base numbers option list strings gmap.

Local Open Scope Z_scope.

(** ** Machine integers *)

Definition UINT_MAX : Z := 2 ^ 32 - 1.

(** Conversion of an integer to [unsigned int]. *)
Definition to_uint (z : Z) : Z := z mod 2 ^ 32.

(** Conversion to [int] (two's complement). *)
Definition to_int (z : Z) : Z := (z + 2 ^ 31) mod 2 ^ 32 - 2 ^ 31.

Record uint3 := Uint3 { x3 : Z; y3 : Z; z3 : Z }.

(** CUDA's [atomicInc(addr, val)]: stores [(old >= val) ? 0 : old + 1] and
    returns [old], in one indivisible step. *)
Definition atomicInc (old val : Z) : Z * Z :=
  (old, if val <=? old then 0 else old + 1).

(** ** Bytes and C strings *)

(** A [const char *] is the list of bytes found at the pointer; the byte
    after the last one reads as the terminator. *)
Definition cstring := list byte.

Definition c_read (c : cstring) (i : nat) : byte := nth i c x00.

Definition is_nul (b : byte) : bool := Byte.eqb b x00.

(** The [n] bytes found at a source pointer. *)
Definition bytes_at (src : list byte) (n : nat) : list byte :=
  map (c_read src) (seq 0 n).

(** [memcpy(dst + off, src, n)] into a field of a struct.  The field is the
    list [dst]; a copy that runs past the end of the field is kept in full,
    so that an overflow shows as a field longer than its capacity.  In the
    struct the bytes past the field land in the members behind it; which
    values those members then hold is not modelled. *)
Definition memcpy (dst : list byte) (off : nat) (src : list byte) (n : nat)
  : list byte :=
  take off dst ++ bytes_at src n ++ drop (off + n) dst.

(** ** Device types: what a template parameter [T] must provide *)

Class DeviceType (T : Type) := {
  sizeof : nat;
  encode : T -> list byte;   (* the object representation, [sizeof] bytes *)
  decode : list byte -> T
}.
Arguments sizeof T {_}.

(** [static_cast<T>(0)]. *)
Definition zero_value (T : Type) `{DeviceType T} : T :=
  decode (repeat x00 (sizeof T)).

(** A type whose values survive a copy through device memory. *)
Class DeviceTypeOk (T : Type) `{DeviceType T} := {
  encode_length : forall v : T, length (encode v) = sizeof T;
  decode_encode : forall v : T, decode (encode v) = v
}.

Definition byte_of_Z (z : Z) : byte :=
  default x00 (Byte.of_N (Z.to_N (z mod 256))).

Definition Z_of_byte (b : byte) : Z := Z.of_N (Byte.to_N b).

(** Little-endian object representation of a 32-bit unsigned integer. *)
Definition encode_u32 (z : Z) : list byte :=
  [byte_of_Z z; byte_of_Z (z / 2 ^ 8); byte_of_Z (z / 2 ^ 16);
   byte_of_Z (z / 2 ^ 24)].

Definition decode_u32 (bs : list byte) : Z :=
  Z_of_byte (c_read bs 0) + Z_of_byte (c_read bs 1) * 2 ^ 8
  + Z_of_byte (c_read bs 2) * 2 ^ 16 + Z_of_byte (c_read bs 3) * 2 ^ 24.

(** [unsigned char] *)
#[export] Instance uchar_DeviceType : DeviceType byte :=
  {| sizeof := 1%nat; encode b := [b]; decode bs := c_read bs 0 |}.

(** [unsigned int], also [size_type] and [id_t] *)
#[export] Instance uint_DeviceType : DeviceType Z :=
  {| sizeof := 4%nat; encode := encode_u32; decode := decode_u32 |}.

#[export] Instance uchar_DeviceTypeOk : DeviceTypeOk byte.
Proof. split; reflexivity. Qed.

(** ** The device exception buffer *)

Module DeviceExceptionBuffer.

Definition MAX_ARGS : nat := 20.
Definition ARG_BUFF_LEN : nat := 4096.
Definition FORMAT_BUFF_LEN : nat := 4096.
Definition FILE_BUFF_LEN : nat := 1024.

Record t := Buffer {
  error_count : Z;
  file_path : list byte;
  line_no : Z;
  block_id : uint3;
  thread_id : uint3;
  format_string : list byte;
  format_args_sizes : list nat;
  format_args : list byte;
  arg_count : nat;
  arg_offset : nat
}.

(** The buffer as the host hands it to a launch: all zero. *)
Definition clean : t :=
  {| error_count := 0;
     file_path := repeat x00 FILE_BUFF_LEN;
     line_no := 0;
     block_id := Uint3 0 0 0;
     thread_id := Uint3 0 0 0;
     format_string := repeat x00 FORMAT_BUFF_LEN;
     format_args_sizes := repeat 0%nat MAX_ARGS;
     format_args := repeat x00 ARG_BUFF_LEN;
     arg_count := 0;
     arg_offset := 0 |}.

Definition set_error_count (c : Z) (b : t) : t :=
  Buffer c (file_path b) (line_no b) (block_id b) (thread_id b)
    (format_string b) (format_args_sizes b) (format_args b) (arg_count b)
    (arg_offset b).

(** Every field has the size the struct declares for it. *)
Definition within_capacity (b : t) : Prop :=
  length (file_path b) = FILE_BUFF_LEN /\
  length (format_string b) = FORMAT_BUFF_LEN /\
  length (format_args_sizes b) = MAX_ARGS /\
  length (format_args b) = ARG_BUFF_LEN.

End DeviceExceptionBuffer.

Import DeviceExceptionBuffer.
Abbreviation DeviceExceptionBuffer := DeviceExceptionBuffer.t.

(** ** DeviceException *)

(** An argument of [setMessage]: a value of some device type, or a
    [const char *] (handled by the specialisation of [subformat]). *)
Inductive format_arg :=
  | Scalar (T : Type) `{DeviceType T} (v : T)
  | CStr (s : cstring).

Module DeviceException.

(** The object holds one member, [hasError]. *)
Record t := Exception { hasError : bool }.

(** The loop of [strlen]: [eos] runs up while [eos < FORMAT_BUFF_LEN],
    leaving at a terminator.  [fuel] counts the iterations left. *)
Fixpoint strlen_loop (c : cstring) (eos fuel : nat) : nat :=
  match fuel with
  | O => eos
  | S fuel' =>
      if is_nul (c_read c eos) || (FORMAT_BUFF_LEN <=? eos)%nat then eos
      else strlen_loop c (S eos) fuel'
  end.

Definition strlen (c : cstring) : nat :=
  let eos := strlen_loop c 0 FORMAT_BUFF_LEN in
  (eos + 1)%nat.

(** The loop of [setMessage] that finds the end of the format string. *)
Fixpoint format_eos (format : cstring) (eos fuel : nat) : nat :=
  match fuel with
  | O => eos
  | S fuel' =>
      if is_nul (c_read format eos) then eos
      else format_eos format (S eos) fuel'
  end.

(** [getErrorCount]: the atomic increment, returning the previous value. *)
Definition getErrorCount (buff : DeviceExceptionBuffer)
  : Z * DeviceExceptionBuffer :=
  let '(old, new) := atomicInc (error_count buff) UINT_MAX in
  (old, set_error_count new buff).

(** The body of the constructor, after [hasError] is initialised. *)
Definition construct_body (hasError : bool) (file : cstring) (line : Z)
    (blockIdx threadIdx : uint3) (buff : DeviceExceptionBuffer)
  : DeviceExceptionBuffer :=
  if hasError then
    let file_len := strlen file in
    Buffer (error_count buff)
      (memcpy (file_path buff) 0 file file_len)
      line blockIdx threadIdx
      (format_string buff) (format_args_sizes buff) (format_args buff)
      (arg_count buff) (arg_offset buff)
  else buff.

(** [DeviceException(file, line)] *)
Definition construct (file : cstring) (line : Z) (blockIdx threadIdx : uint3)
    (buff : DeviceExceptionBuffer) : t * DeviceExceptionBuffer :=
  let '(old, buff) := getErrorCount buff in
  let hasError := old =? 0 in
  (Exception hasError, construct_body hasError file line blockIdx threadIdx buff).

(** The sum of two [unsigned int], as [unsigned int]: it wraps at 2^32. *)
Definition uint_add (a b : nat) : nat :=
  Z.to_nat (to_uint (Z.of_nat a + Z.of_nat b)).

(** The common part of both [subformat]s: store [size] bytes of [src].
    [buff->arg_offset += size] assigns to an [unsigned int]. *)
Definition store_arg (buff : DeviceExceptionBuffer) (size : nat)
    (src : list byte) : DeviceExceptionBuffer :=
  Buffer (error_count buff) (file_path buff) (line_no buff) (block_id buff)
    (thread_id buff) (format_string buff)
    (<[arg_count buff := size]> (format_args_sizes buff))
    (memcpy (format_args buff) (arg_offset buff) src size)
    (S (arg_count buff))
    (uint_add (arg_offset buff) size).

(** [subformat<T>(buff, t)].  The guard adds [sizeof(T)], a [size_t], so
    the sum is formed in 64 bits and does not wrap. *)
Definition subformat {T} `{DeviceType T} (buff : DeviceExceptionBuffer)
    (v : T) : DeviceExceptionBuffer :=
  if (arg_count buff <? MAX_ARGS)%nat then
    if (arg_offset buff + sizeof T <=? ARG_BUFF_LEN)%nat then
      store_arg buff (sizeof T) (encode v)
    else buff
  else buff.

(** [subformat(buff, const char *t)].  Here both operands of the guard
    are [unsigned int], and so is their sum. *)
Definition subformat_cstr (buff : DeviceExceptionBuffer) (s : cstring)
  : DeviceExceptionBuffer :=
  if (arg_count buff <? MAX_ARGS)%nat then
    let string_length := strlen s in
    if (uint_add (arg_offset buff) string_length <=? ARG_BUFF_LEN)%nat then
      store_arg buff string_length s
    else buff
  else buff.

Definition subformat_arg (buff : DeviceExceptionBuffer) (a : format_arg)
  : DeviceExceptionBuffer :=
  match a with
  | Scalar T v => subformat buff v
  | CStr s => subformat_cstr buff s
  end.

(** [subformat_recurse(buff, args...)] *)
Fixpoint subformat_recurse (buff : DeviceExceptionBuffer)
    (args : list format_arg) : DeviceExceptionBuffer :=
  match args with
  | [] => buff
  | a :: args => subformat_recurse (subformat_arg buff a) args
  end.

(** [setMessage(format, args...)] *)
Definition setMessage (e : t) (format : cstring) (args : list format_arg)
    (buff : DeviceExceptionBuffer) : DeviceExceptionBuffer :=
  if hasError e then
    if negb (is_nul (c_read (format_string buff) 0)) then buff
    else
      let eos := format_eos format 0 FORMAT_BUFF_LEN in
      let buff :=
        Buffer (error_count buff) (file_path buff) (line_no buff)
          (block_id buff) (thread_id buff)
          (memcpy (format_string buff) 0 format eos)
          (format_args_sizes buff) (format_args buff) (arg_count buff)
          (arg_offset buff) in
      subformat_recurse buff args
  else buff.

(** [DTHROW(format, args...)], that is
    [DeviceException::create(__FILE__, __LINE__).setMessage(format, args...)],
    run by one thread without interruption. *)
Definition DTHROW (file : cstring) (line : Z) (blockIdx threadIdx : uint3)
    (format : cstring) (args : list format_arg)
    (buff : DeviceExceptionBuffer) : DeviceExceptionBuffer :=
  let '(e, buff) := construct file line blockIdx threadIdx buff in
  setMessage e format args buff.

End DeviceException.

(** ** Build configuration and launch context *)

(** What the preprocessor and the headers outside this development fix. *)
Class Build := {
  (** [!defined(SEATBELTS) || SEATBELTS], the guard used in DeviceAPI.h *)
  SEATBELTS : bool;
  (** [defined(NO_SEATBELTS)], the guard used in Array.h and around [DTHROW] *)
  NO_SEATBELTS : bool;
  (** the constant [ID_NOT_SET] of flamegpu/defines.h *)
  ID_NOT_SET : Z;
  (** [__FILE__] inside DeviceAPI.h and inside Array.h *)
  FILE_DeviceAPI_h : cstring;
  FILE_Array_h : cstring
}.

(** The built-in variables of the calling thread. *)
Record Thread := {
  blockDim : uint3;
  blockIdx : uint3;
  threadIdx : uint3
}.

(** [(blockDim.x * blockIdx.x) + threadIdx.x], in [unsigned int]. *)
Definition thread_index (t : Thread) : Z :=
  to_uint (to_uint (x3 (blockDim t) * x3 (blockIdx t)) + x3 (threadIdx t)).

(** [variable_name[0] == '_'] *)
Definition reserved (variable_name : string) : bool :=
  match variable_name with
  | String c _ => Ascii.eqb c (Ascii.ascii_of_byte x5f)
  | EmptyString => false
  end.

(** A string literal as the bytes of a [const char *]. *)
Definition literal (s : string) : cstring := String.list_byte_of_string s.

(** ** cuRVE *)

Module Curve.

Definition NamespaceHash := Z.

(** Modelled from the spec: the binding table of curve.h, which is not
    among the sources.  A binding maps (namespace hash, name) to type
    metadata and a device buffer; the buffer holds one cell per agent and
    array element, cell [index * array_length + array_index]. *)
Record VariableBinding := Binding {
  type_size : nat;
  array_length : nat;
  buffer : list (list byte)
}.

Definition cell (N : nat) (index : Z) (array_index : Z) : nat :=
  (Z.to_nat index * N + Z.to_nat array_index)%nat.

Section Access.
Context (T : Type) `{DeviceType T}.

(** Modelled from the spec: a read returns the value stored at the
    given logical index of the named buffer of the namespace; it
    requires a registered name, a matching type size and array length,
    and an index inside the buffer.  Outside these requirements the
    spec fixes no result: [None]. *)
Definition read (N : nat) (name : string) (hash : NamespaceHash)
    (index array_index : Z) (tbl : gmap (Z * string) VariableBinding)
  : option T :=
  match tbl !! (hash, name) with
  | Some b =>
      if decide (type_size b = sizeof T /\ array_length b = N /\
                 0 <= array_index < Z.of_nat N /\ 0 <= index)
      then decode <$> buffer b !! cell N index array_index
      else None
  | None => None
  end.

(** Modelled from the spec: a write stores the value at the same place,
    under the same requirements, and leaves the metadata as
    registered. *)
Definition write (N : nat) (name : string) (hash : NamespaceHash)
    (value : T) (index array_index : Z)
    (tbl : gmap (Z * string) VariableBinding)
  : option (gmap (Z * string) VariableBinding) :=
  match tbl !! (hash, name) with
  | Some b =>
      if decide (type_size b = sizeof T /\ array_length b = N /\
                 0 <= array_index < Z.of_nat N /\ 0 <= index /\
                 (cell N index array_index < length (buffer b))%nat)
      then Some (<[(hash, name) :=
                    Binding (type_size b) (array_length b)
                      (<[cell N index array_index := encode value]>
                         (buffer b))]> tbl)
      else None
  | None => None
  end.

(** Modelled from the spec: the entry points of curve.h that the device
    API calls.  A scalar variable is an array of one element. *)
Definition getAgentVariable name hash index := read 1 name hash index 0.
Definition setAgentVariable name hash value index :=
  write 1 name hash value index 0.
Definition getAgentArrayVariable N name hash index array_index :=
  read N name hash index array_index.
Definition setAgentArrayVariable N name hash value index array_index :=
  write N name hash value index array_index.
Definition setNewAgentVariable name hash value index :=
  write 1 name hash value index 0.
Definition setNewAgentArrayVariable N name hash value index array_index :=
  write N name hash value index array_index.
Definition getVariable name hash index := read 1 name hash index 0.
Definition setVariable name hash value index :=
  write 1 name hash value index 0.
End Access.

(** The requirement of an access: the name is registered in the
    namespace with this type size and array length, and the cell lies
    inside the buffer. *)
Definition registered (size N : nat) (name : string) (hash : NamespaceHash)
    (index array_index : Z) (tbl : gmap (Z * string) VariableBinding)
  : Prop :=
  exists b,
    tbl !! (hash, name) = Some b /\ type_size b = size /\
    array_length b = N /\ 0 <= array_index < Z.of_nat N /\ 0 <= index /\
    (cell N index array_index < length (buffer b))%nat.

End Curve.

(** ** Device state and the monad of device code *)

Record Device := {
  (** the launch's [DeviceExceptionBuffer] *)
  error_buffer : DeviceExceptionBuffer;
  (** the cuRVE table with the buffers it points to *)
  curve : gmap (Z * string) Curve.VariableBinding;
  (** [*d_agent_output_nextID] *)
  agent_output_nextID : Z;
  (** [scanFlag_agentOutput] *)
  scan_flag_agentOutput : list Z
}.

Definition set_error_buffer (b : DeviceExceptionBuffer) (d : Device) : Device :=
  {| error_buffer := b; curve := curve d;
     agent_output_nextID := agent_output_nextID d;
     scan_flag_agentOutput := scan_flag_agentOutput d |}.

Definition set_curve (c : gmap (Z * string) Curve.VariableBinding)
    (d : Device) : Device :=
  {| error_buffer := error_buffer d; curve := c;
     agent_output_nextID := agent_output_nextID d;
     scan_flag_agentOutput := scan_flag_agentOutput d |}.

Definition set_nextID (n : Z) (d : Device) : Device :=
  {| error_buffer := error_buffer d; curve := curve d;
     agent_output_nextID := n;
     scan_flag_agentOutput := scan_flag_agentOutput d |}.

Definition set_scan_flag (f : list Z) (d : Device) : Device :=
  {| error_buffer := error_buffer d; curve := curve d;
     agent_output_nextID := agent_output_nextID d;
     scan_flag_agentOutput := f |}.

(** Device code: a state transformer that may leave the behaviour the
    model defines ([None]). *)
Definition dev (A : Type) : Type := Device -> option (A * Device).

#[export] Instance dev_ret : MRet dev := fun A (a : A) d => Some (a, d).

#[export] Instance dev_bind : MBind dev :=
  fun A B (k : A -> dev B) (m : dev A) d =>
    match m d with
    | Some (a, d') => k a d'
    | None => None
    end.

(** Reads and writes through cuRVE, lifted to device code. *)
Definition curve_read {A} (r : gmap (Z * string) Curve.VariableBinding -> option A)
  : dev A :=
  fun d => match r (curve d) with
           | Some v => Some (v, d)
           | None => None
           end.

Definition curve_write
    (w : gmap (Z * string) Curve.VariableBinding ->
         option (gmap (Z * string) Curve.VariableBinding))
  : dev unit :=
  fun d => match w (curve d) with
           | Some c => Some (tt, set_curve c d)
           | None => None
           end.

(** The macro [DTHROW]: empty when [NO_SEATBELTS] is defined. *)
Definition DTHROW `{Build} (t : Thread) (file : cstring) (line : Z)
    (format : cstring) (args : list format_arg) : dev unit :=
  fun d =>
    if NO_SEATBELTS then Some (tt, d)
    else Some (tt, set_error_buffer
                     (DeviceException.DTHROW file line (blockIdx t)
                        (threadIdx t) format args (error_buffer d)) d).

(** [scan_flag[index] = 1]; a store outside the array is undefined. *)
Definition mark_scan_flag (index : Z) : dev unit :=
  fun d =>
    if decide (Z.to_nat index < length (scan_flag_agentOutput d))%nat
    then Some (tt, set_scan_flag
                     (<[Z.to_nat index := 1]> (scan_flag_agentOutput d)) d)
    else None.

(** ** DeviceAPI.h *)

Module ReadOnlyDeviceAPI.

Record t := Api { agent_func_name_hash : Curve.NamespaceHash }.

Section Methods.
Context (thread : Thread) (T : Type) `{DeviceType T}.

(** [getVariable<T>(variable_name)] *)
Definition getVariable (this : t) (variable_name : string) : dev T :=
  let index := thread_index thread in
  value ← curve_read
    (Curve.getAgentVariable T variable_name (agent_func_name_hash this)
       index);
  mret value.

(** [getVariable<T, N>(variable_name, array_index)] *)
Definition getVariable_array (N : nat) (this : t) (variable_name : string)
    (array_index : Z) : dev T :=
  let index := thread_index thread in
  value ← curve_read
    (Curve.getAgentArrayVariable T N variable_name
       (agent_func_name_hash this) index array_index);
  mret value.
End Methods.

(** [getID()] *)
Definition getID (thread : Thread) (this : t) : dev Z :=
  getVariable thread Z this "_id".

End ReadOnlyDeviceAPI.

Module DeviceAPI.

Import ReadOnlyDeviceAPI.

Section Methods.
Context (thread : Thread) (T : Type) `{DeviceType T}.

(** [setVariable<T>(variable_name, value)] *)
Definition setVariable (this : ReadOnlyDeviceAPI.t)
    (variable_name : string) (value : T) : dev unit :=
  if reserved variable_name then mret tt  (* Fail silently *)
  else
    let index := thread_index thread in
    curve_write
      (Curve.setAgentVariable T variable_name (agent_func_name_hash this)
         value index).

(** [setVariable<T, N>(variable_name, array_index, value)] *)
Definition setVariable_array (N : nat) (this : ReadOnlyDeviceAPI.t)
    (variable_name : string) (array_index : Z) (value : T) : dev unit :=
  if reserved variable_name then mret tt  (* Fail silently *)
  else
    let index := thread_index thread in
    curve_write
      (Curve.setAgentArrayVariable T N variable_name
         (agent_func_name_hash this) value index array_index).
End Methods.

(** *** DeviceAPI::AgentOut *)
Module AgentOut.

(** [scan_flag] and [nextID] point into the device state; the object
    itself carries the hash and the mutable [id]. *)
Record t := Out { agent_output_hash : Curve.NamespaceHash; id : Z }.

Definition output_disabled_message : cstring :=
  literal "Agent output must be enabled per agent function when defining the model."
  ++ [x0a].

Section Methods.
Context `{Build} (thread : Thread).

(** The constructor: [id] starts as [ID_NOT_SET]. *)
Definition construct (aoh : Curve.NamespaceHash) : t :=
  {| agent_output_hash := aoh; id := ID_NOT_SET |}.

(** [genID()]: [id_t] is [unsigned int], so the increment wraps at
    [UINT_MAX]. *)
Definition genID (this : t) : dev t :=
  if id this =? ID_NOT_SET then
    fun d =>
      let '(old, new) := atomicInc (agent_output_nextID d) UINT_MAX in
      let this := {| agent_output_hash := agent_output_hash this;
                     id := old |} in
      let index := thread_index thread in
      (curve_write
         (Curve.setNewAgentVariable Z "_id" (agent_output_hash this)
            (id this) index);;
       mark_scan_flag index;;
       mret this) (set_nextID new d)
  else mret this.

(** [setVariable<T>(variable_name, value)] *)
Definition setVariable (T : Type) `{DeviceType T} (this : t)
    (variable_name : string) (value : T) : dev t :=
  if negb (agent_output_hash this =? 0) then
    if reserved variable_name then mret this  (* Fail silently *)
    else if negb (agent_output_hash this =? 0) then
      let index := thread_index thread in
      curve_write
        (Curve.setNewAgentVariable T variable_name
           (agent_output_hash this) value index);;
      genID this
    else mret this
  else if SEATBELTS then
    DTHROW thread FILE_DeviceAPI_h 357 output_disabled_message [];;
    mret this
  else mret this.

(** [setVariable<T, N>(variable_name, array_index, value)] *)
Definition setVariable_array (T : Type) `{DeviceType T} (N : nat)
    (this : t) (variable_name : string) (array_index : Z) (value : T)
  : dev t :=
  if negb (agent_output_hash this =? 0) then
    if reserved variable_name then mret this  (* Fail silently *)
    else
      let index := thread_index thread in
      curve_write
        (Curve.setNewAgentArrayVariable T N variable_name
           (agent_output_hash this) value index array_index);;
      genID this
  else if SEATBELTS then
    DTHROW thread FILE_DeviceAPI_h 378 output_disabled_message [];;
    mret this
  else mret this.

(** [getID()] *)
Definition getID (this : t) : dev (Z * t) :=
  if negb (agent_output_hash this =? 0) then
    this ← genID this;
    mret (id this, this)
  else
    (if SEATBELTS then
       DTHROW thread FILE_DeviceAPI_h 390 output_disabled_message []
     else mret tt);;
    mret (ID_NOT_SET, this).
End Methods.

End AgentOut.

End DeviceAPI.

(** ** messaging/Array.h *)

Module MsgArray.

(** [size_type] is [unsigned int]. *)
Record MetaData := { length : Z }.

Module In.

Record t := Make { combined_hash : Curve.NamespaceHash; length : Z }.

(** [In(agentfn_hash, msg_hash, metadata)] *)
Definition construct (agentfn_hash msg_hash : Curve.NamespaceHash)
    (metadata : MetaData) : t :=
  {| combined_hash := to_uint (agentfn_hash + msg_hash);
     length := MsgArray.length metadata |}.

Module Filter.

Record t := Make {
  loc : Z;
  radius : Z;
  length : Z;
  combined_hash : Curve.NamespaceHash
}.

(** Modelled from the spec: the constructor [Filter(_length,
    _combined_hash, x, _radius)] is declared in Array.h and defined
    outside the sources; it keeps the search origin, the radius, the
    list length and the hash. *)
Definition construct (_length : Z) (_combined_hash : Curve.NamespaceHash)
    (x _radius : Z) : t :=
  {| loc := x; radius := _radius; length := _length;
     combined_hash := _combined_hash |}.

Module Message.

Record t := Make {
  _parent : Filter.t;
  relative_cell : Z;      (* int *)
  index_1d : Z            (* size_type, initialised to 0 *)
}.

(** [Message(parent, relative_x)] *)
Definition construct (parent : Filter.t) (relative_x : Z) : t :=
  {| _parent := parent; relative_cell := relative_x; index_1d := 0 |}.

(** [operator==] *)
Definition eq (this rhs : t) : bool :=
  (index_1d this =? index_1d rhs)
  && (loc (_parent this) =? loc (_parent rhs)).

(** [operator!=] *)
Definition neq (this rhs : t) : bool := negb (eq this rhs).

(** The absolute bin of a relative cell:
    [(loc + relative + length) % length], in [unsigned int]. *)
Definition wrap (parent : Filter.t) (relative : Z) : Z :=
  to_uint (to_uint (loc parent + to_uint relative) + length parent)
  mod length parent.

(** [getX()] *)
Definition getX (this : t) : Z :=
  wrap (_parent this) (relative_cell this).

(** Modelled from the spec: [operator++] is declared in Array.h and
    defined outside the sources.  A step adds 1 to the relative
    offset; the window excludes the origin cell, so offset 0 is
    stepped over; the message then points at the absolute bin
    [(origin + relative + L) mod L]. *)
Definition incr (this : t) : t :=
  let relative := to_int (relative_cell this + 1) in
  let relative := if relative =? 0 then to_int (relative + 1)
                  else relative in
  {| _parent := _parent this; relative_cell := relative;
     index_1d := wrap (_parent this) relative |}.

(** [getVariable<T>(variable_name)] *)
Definition getVariable (T : Type) `{DeviceType T} (this : t)
    (variable_name : string) : dev T :=
  if index_1d this <? length (_parent this) then
    curve_read
      (Curve.getVariable T variable_name
         (combined_hash (_parent this)) (index_1d this))
  else mret (zero_value T).

End Message.

Module iterator.

Record t := Make { _message : Message.t }.

(** [iterator(parent, relative_x)]: increments once to find the
    first message. *)
Definition construct (parent : Filter.t) (relative_x : Z) : t :=
  {| _message := Message.incr (Message.construct parent relative_x) |}.

(** prefix [operator++] *)
Definition incr (this : t) : t :=
  {| _message := Message.incr (_message this) |}.

Definition eq (this rhs : t) : bool :=
  Message.eq (_message this) (_message rhs).

Definition neq (this rhs : t) : bool :=
  Message.neq (_message this) (_message rhs).

(** [operator*] *)
Definition deref (this : t) : Message.t := _message this.

End iterator.

(** [begin()]: the bin before the initial bin. *)
Definition begin_ (this : t) : iterator.t :=
  iterator.construct this (to_int (- to_int (radius this) - 1)).

(** [end()]: the final bin. *)
Definition end_ (this : t) : iterator.t :=
  iterator.construct this (to_int (radius this)).

(** The loop [for (it = begin(); it != end(); ++it)] that a caller
    runs over the filter, collecting [getX()] of every message it
    visits.  [None]: the loop is still running when the fuel is
    spent. *)
Fixpoint visit (fuel : nat) (it last : iterator.t) : option (list Z) :=
  match fuel with
  | O => None
  | S fuel' =>
      if iterator.neq it last then
        cons (Message.getX (iterator.deref it))
          <$> visit fuel' (iterator.incr it) last
      else Some []
  end.

Definition traverse (fuel : nat) (this : t) : option (list Z) :=
  visit fuel (begin_ this) (end_ this).

End Filter.

Definition invalid_radius_message : cstring :=
  literal "Invalid radius %llu for accessing array messaglist of length %u"
  ++ [x0a].

Definition out_of_bounds_message : cstring :=
  literal "Index is out of bounds for Array messagelist (%u >= %u)."
  ++ [x0a].

Section Methods.
Context `{Build} (thread : Thread).

(** [operator()(x, radius)] *)
Definition call (this : t) (x radius : Z) : dev Filter.t :=
  (if NO_SEATBELTS then mret tt
   else if (radius =? 0) || (length this <? radius) then
     DTHROW thread FILE_Array_h 259 invalid_radius_message
       [Scalar Z radius; Scalar Z (length this)]
   else mret tt);;
  mret (Filter.construct (length this) (combined_hash this) x radius).

(** [size()] *)
Definition size (this : t) : Z := length this.
End Methods.

End In.

Module Message.

Record t := Make { _parent : In.t; index : Z }.

(** [operator==] *)
Definition eq (this rhs : t) : bool := index this =? index rhs.

(** [getIndex()] *)
Definition getIndex (this : t) : Z := index this.

(** [getVariable<T>(variable_name)] *)
Definition getVariable (T : Type) `{DeviceType T} (this : t)
    (variable_name : string) : dev T :=
  if index this <? In.length (_parent this) then
    curve_read
      (Curve.getVariable T variable_name (In.combined_hash (_parent this))
         (index this))
  else mret (zero_value T).

End Message.

(** [In::at(index)] *)
Definition In_at `{Build} (thread : Thread) (this : In.t) (index : Z)
  : dev Message.t :=
  (if NO_SEATBELTS then mret tt
   else if In.length this <=? index then
     DTHROW thread FILE_Array_h 273 In.out_of_bounds_message
       [Scalar Z index; Scalar Z (In.length this)]
   else mret tt);;
  mret (Message.Make this index).

Module Out.

Record t := Make {
  combined_hash : Curve.NamespaceHash;
  metadata : option MetaData
}.

(** [Out(agentfn_hash, msg_hash, _metadata, scan_flag_messageOutput)] *)
Definition construct `{Build} (agentfn_hash msg_hash : Curve.NamespaceHash)
    (_metadata : MetaData) : t :=
  {| combined_hash := to_uint (agentfn_hash + msg_hash);
     metadata := if NO_SEATBELTS then None else Some _metadata |}.

(** [setVariable<T>(variable_name, value)] *)
Definition setVariable (thread : Thread) (T : Type) `{DeviceType T}
    (this : t) (variable_name : string) (value : T) : dev unit :=
  if reserved variable_name then mret tt  (* Fail silently *)
  else
    let index := thread_index thread in
    curve_write
      (Curve.setVariable T variable_name (combined_hash this) value index).

End Out.

End MsgArray.

(** ** A kernel launch in which threads fail

    Threads share the exception buffer and nothing orders them but the
    atomic increment.  A thread that reaches [DTHROW] goes through three
    steps: the increment in the initialiser of [hasError], the body of the
    constructor, and [setMessage].  A schedule names the thread that takes
    the next step; any interleaving is a schedule. *)

Module Launch.

(** One report: what a failing thread passes to [DTHROW] and who it is.
    A thread that reports again has a further entry. *)
Record failure := {
  file : cstring;
  line : Z;
  block : uint3;
  thread : uint3;
  format : cstring;
  args : list format_arg
}.

Inductive stage :=
  | Pending                                  (* before the increment *)
  | Entered (e : DeviceException.t)          (* [hasError] initialised *)
  | Constructed (e : DeviceException.t)      (* constructor returned *)
  | Finished (e : DeviceException.t).        (* [setMessage] returned *)

Record state := {
  buffer : DeviceExceptionBuffer;
  stages : list stage
}.

Definition start (fs : list failure) : state :=
  {| buffer := clean; stages := replicate (length fs) Pending |}.

(** The next step of thread [i]. *)
Definition step (fs : list failure) (i : nat) (st : state) : state :=
  match fs !! i, stages st !! i with
  | Some f, Some Pending =>
      let '(old, buff) := DeviceException.getErrorCount (buffer st) in
      {| buffer := buff;
         stages := <[i := Entered (DeviceException.Exception (old =? 0))]>
                     (stages st) |}
  | Some f, Some (Entered e) =>
      {| buffer := DeviceException.construct_body
                     (DeviceException.hasError e) (file f) (line f)
                     (block f) (thread f) (buffer st);
         stages := <[i := Constructed e]> (stages st) |}
  | Some f, Some (Constructed e) =>
      {| buffer := DeviceException.setMessage e (format f) (args f)
                     (buffer st);
         stages := <[i := Finished e]> (stages st) |}
  | _, _ => st
  end.

Definition run (fs : list failure) (schedule : list nat) (st : state)
  : state :=
  foldl (fun st i => step fs i st) st schedule.

Definition is_finished (s : stage) : bool :=
  match s with Finished _ => true | _ => false end.

(** Every failing thread has returned from [DTHROW]. *)
Definition finished (st : state) : bool := forallb is_finished (stages st).

(** The detail fields: everything but the counter. *)
Definition detail (b : DeviceExceptionBuffer) : DeviceExceptionBuffer :=
  set_error_count 0 b.

(** What the owner of the claim alone leaves in a clean buffer. *)
Definition report (f : failure) : DeviceExceptionBuffer :=
  DeviceException.setMessage (DeviceException.Exception true)
    (format f) (args f)
    (DeviceException.construct_body true (file f) (line f) (block f)
       (thread f) clean).

End Launch.

(** ** Ownership of the report: the invariant of a launch *)

Module Ownership.
Import Launch.

Definition is_pending (s : stage) : bool :=
  match s with Pending => true | _ => false end.

(** [hasError] of a thread that has passed the increment. *)
Definition stage_owner (s : stage) : bool :=
  match s with
  | Pending => false
  | Entered e | Constructed e | Finished e => DeviceException.hasError e
  end.

(** The number of threads that have passed the increment. *)
Fixpoint claimed (ss : list stage) : nat :=
  match ss with
  | [] => 0
  | s :: ss => ((if is_pending s then 0 else 1) + claimed ss)%nat
  end.

(** What the owner has written so far, on a clean buffer. *)
Definition owner_progress (f : failure) (s : stage) : DeviceExceptionBuffer :=
  match s with
  | Pending | Entered _ => clean
  | Constructed _ =>
      DeviceException.construct_body true (file f) (line f) (block f)
        (thread f) clean
  | Finished _ => report f
  end.

(** Thread [o] owns the claim: it alone has [hasError], and the detail
    fields hold what it has written and nothing else. *)
Definition owned_by (fs : list failure) (st : state) (o : nat) : Prop :=
  exists f s,
    fs !! o = Some f /\ stages st !! o = Some s /\ stage_owner s = true /\
    (forall j s', j <> o -> stages st !! j = Some s' ->
                  stage_owner s' = false) /\
    detail (buffer st) = owner_progress f s.

Record invariant (fs : list failure) (st : state) : Prop := {
  inv_length : length (stages st) = length fs;
  inv_count : error_count (buffer st) = Z.of_nat (claimed (stages st));
  inv_owner :
    (claimed (stages st) = 0%nat /\ detail (buffer st) = clean)
    \/ exists o, owned_by fs st o
}.

End Ownership.

(** What [setMessage] needs of the argument bookkeeping to stay inside the
    buffer. *)
Definition args_in_bounds (b : DeviceExceptionBuffer) : Prop :=
  (arg_count b <= MAX_ARGS)%nat /\ (arg_offset b <= ARG_BUFF_LEN)%nat.

(** The device state after the calling thread's [DTHROW]. *)
Definition reported (thread : Thread) (file : cstring) (line : Z)
    (format : cstring) (args : list format_arg) (d : Device) : Device :=
  set_error_buffer
    (DeviceException.DTHROW file line (blockIdx thread) (threadIdx thread)
       format args (error_buffer d)) d.

(** ** Calls on the output accessor *)

Module AgentOutCalls.
Import DeviceAPI.AgentOut.

(** A thread's setter calls, one after the other. *)
Fixpoint set_each `{Build} (thread : Thread) (T : Type) `{DeviceType T}
    (this : t) (calls : list (string * T)) : dev t :=
  match calls with
  | [] => mret this
  | (name, value) :: calls =>
      this ← setVariable thread T this name value;
      set_each thread T this calls
  end.

(** One call on the output accessor. *)
Inductive call :=
  | CallSet (T : Type) `{DeviceType T} (name : string) (value : T)
  | CallSetArray (T : Type) `{DeviceType T} (N : nat) (name : string)
      (array_index : Z) (value : T)
  | CallGetID.

Definition run_call `{Build} (thread : Thread) (c : call) (this : t) : dev t :=
  match c with
  | CallSet T name value => setVariable thread T this name value
  | CallSetArray T N name array_index value =>
      setVariable_array thread T N this name array_index value
  | CallGetID => r ← getID thread this; mret (snd r)
  end.

(** The calls that reach [genID]: [getID], and the setters whose name is
    not reserved. *)
Definition reaches_genID (c : call) : bool :=
  match c with
  | CallSet _ name _ | CallSetArray _ _ name _ _ => negb (reserved name)
  | CallGetID => true
  end.

(** cuRVE's requirement for the write a call makes. *)
Definition call_registered (hash : Curve.NamespaceHash) (index : Z) (c : call)
    (tbl : gmap (Z * string) Curve.VariableBinding) : Prop :=
  match c with
  | CallSet T name _ =>
      reserved name = false ->
      Curve.registered (sizeof T) 1 name hash index 0 tbl
  | CallSetArray T N name array_index _ =>
      reserved name = false ->
      Curve.registered (sizeof T) N name hash index array_index tbl
  | CallGetID => True
  end.

End AgentOutCalls.

(** ** The window of a filter *)

Module Window.
Import MsgArray.In.

(** The relative offset after a step: one more, and the origin is stepped
    over. *)
Definition next_relative (k : Z) : Z := if k =? -1 then 1 else k + 1.

(** The offsets of the window from [k] on: up to [radius], without 0. *)
Definition offsets_from (k radius : Z) : list Z :=
  if k <? 0 then seqZ k (- k) ++ seqZ 1 radius else seqZ k (radius + 1 - k).

(** The window of a radius: [-radius .. -1] and [1 .. radius]. *)
Definition window (radius : Z) : list Z := seqZ (- radius) radius ++ seqZ 1 radius.

(** The message of filter [f] at relative offset [k]. *)
Definition message_at (f : Filter.t) (k : Z) : Filter.Message.t :=
  Filter.Message.Make f k (Filter.Message.wrap f k).

(** The shapes the arithmetic of a filter stays exact on: a non-empty list,
    an origin inside it, a radius the call accepts, and no overflow of the
    32-bit sum. *)
Record sound (f : Filter.t) : Prop := {
  sound_length : 0 < Filter.length f;
  sound_loc : 0 <= Filter.loc f < Filter.length f;
  sound_radius : 1 <= Filter.radius f <= Filter.length f;
  sound_sum : Filter.loc f + Filter.length f + Filter.radius f + 1 < 2 ^ 32;
  sound_int : Filter.radius f + 1 < 2 ^ 31
}.

End Window.

(** ** Concrete launches, used to run the definitions *)

Module Fixture.

(** The default build: checks compiled in; [ID_NOT_SET] taken as 0. *)
Definition build : Build :=
  {| SEATBELTS := true;
     NO_SEATBELTS := false;
     ID_NOT_SET := 0;
     FILE_DeviceAPI_h := literal "include/flamegpu/runtime/DeviceAPI.h";
     FILE_Array_h := literal "include/flamegpu/runtime/messaging/Array.h" |}.

(** Thread 1 of block 0. *)
Definition thread : Thread :=
  {| blockDim := Uint3 64 1 1;
     blockIdx := Uint3 0 0 0;
     threadIdx := Uint3 1 0 0 |}.

Definition table : gmap (Z * string) Curve.VariableBinding :=
  <[(7, "x") := Curve.Binding 1 1 [[x00]; [x00]]]>
    (<[(7, "a") := Curve.Binding 1 3 (replicate 6 [x00])]>
       (<[(9, "x") := Curve.Binding 1 1 [[x00]; [x00]]]>
          (<[(9, "_id") := Curve.Binding 4 1 (replicate 2 (encode_u32 0))]>
             ∅))).

(** Two agents, one byte variable ["x"] and one array ["a"] of three bytes
    under namespace 7; the new-agent variables under namespace 9. *)
Definition device : Device :=
  {| error_buffer := clean;
     curve := table;
     agent_output_nextID := 1;
     scan_flag_agentOutput := [0; 0] |}.

Definition api : ReadOnlyDeviceAPI.t := ReadOnlyDeviceAPI.Api 7.

Definition agent_out : DeviceAPI.AgentOut.t := DeviceAPI.AgentOut.Out 9 0.

Definition agent_out_disabled : DeviceAPI.AgentOut.t :=
  DeviceAPI.AgentOut.Out 0 0.

Definition message_out : MsgArray.Out.t := MsgArray.Out.Make 7 None.

Definition message_in : MsgArray.In.t := MsgArray.In.Make 7 10.

(** Two threads of block 0 that fail at different lines. *)
Definition failures : list Launch.failure :=
  [ {| Launch.file := literal "model.cu"; Launch.line := 12;
       Launch.block := Uint3 0 0 0; Launch.thread := Uint3 0 0 0;
       Launch.format := literal "bad index %u";
       Launch.args := [Scalar Z 5] |};
    {| Launch.file := literal "model.cu"; Launch.line := 40;
       Launch.block := Uint3 0 0 0; Launch.thread := Uint3 1 0 0;
       Launch.format := literal "bad radius %u";
       Launch.args := [Scalar Z 0] |} ].

(** Thread 1 increments first; the steps of the two interleave. *)
Definition schedule : list nat := [1; 0; 0; 1; 0; 1]%nat.

End Fixture.

(** ** Further definitions read off the sources *)

(** [ReadOnlyDeviceAPI::getThreadIndex()]:
    [blockIdx.x * blockDim.x + threadIdx.x], in [unsigned int].  (The
    assertions on the other dimensions are compiled only with
    [SEATBELTS] defined.) *)
Definition getThreadIndex (t : Thread) : Z :=
  to_uint (to_uint (x3 (blockIdx t) * x3 (blockDim t)) + x3 (threadIdx t)).

(** What an argument of [setMessage] puts into the buffer. *)
Module Packing.

(** The size [subformat] records: [sizeof(T)], or [strlen] of a string. *)
Definition arg_size (a : format_arg) : nat :=
  match a with
  | Scalar T _ => sizeof T
  | CStr s => DeviceException.strlen s
  end.

(** The bytes its [memcpy] reads at the argument. *)
Definition arg_bytes (a : format_arg) : list byte :=
  match a with
  | Scalar T v => bytes_at (encode v) (sizeof T)
  | CStr s => bytes_at s (DeviceException.strlen s)
  end.

Fixpoint total_size (args : list format_arg) : nat :=
  match args with
  | [] => 0
  | a :: args => (arg_size a + total_size args)%nat
  end.

End Packing.

(** Failures reported one after the other, each [DTHROW] run whole. *)
Definition report_each (fs : list Launch.failure)
    (buff : DeviceExceptionBuffer) : DeviceExceptionBuffer :=
  foldl (fun buff f =>
           DeviceException.DTHROW (Launch.file f) (Launch.line f)
             (Launch.block f) (Launch.thread f) (Launch.format f)
             (Launch.args f) buff)
        buff fs.

(** Threads that each ask for the id of their output agent, one call after
    the other, each on the accessor its [DeviceAPI] constructs. *)
Fixpoint getID_each `{Build} (aoh : Curve.NamespaceHash)
    (threads : list Thread) : dev (list Z) :=
  match threads with
  | [] => mret []
  | thread :: threads =>
      r ← DeviceAPI.AgentOut.getID thread (DeviceAPI.AgentOut.construct aoh);
      ids ← getID_each aoh threads;
      mret (fst r :: ids)
  end.

(** A second device for running the definitions: the agents' own ["_id"]
    beside ["x"], and room for three output agents. *)
Module Fixture2.

Definition table : gmap (Z * string) Curve.VariableBinding :=
  <[(7, "x") := Curve.Binding 1 1 [[x00]; [x01]; [x02]]]>
    (<[(7, "_id") := Curve.Binding 4 1
                       [encode_u32 11; encode_u32 12; encode_u32 13]]>
       (<[(9, "_id") := Curve.Binding 4 1 (replicate 3 (encode_u32 0))]> ∅)).

Definition device : Device :=
  {| error_buffer := clean;
     curve := table;
     agent_output_nextID := 5;
     scan_flag_agentOutput := [0; 0; 0] |}.

Definition thread (i : Z) : Thread :=
  {| blockDim := Uint3 64 1 1;
     blockIdx := Uint3 0 0 0;
     threadIdx := Uint3 i 0 0 |}.

(** A build with the checks compiled out. *)
Definition unchecked : Build :=
  {| SEATBELTS := false;
     NO_SEATBELTS := true;
     ID_NOT_SET := 0;
     FILE_DeviceAPI_h := literal "DeviceAPI.h";
     FILE_Array_h := literal "Array.h" |}.

End Fixture2.

(** * Properties *)

(** Reduce the projections of an explicit buffer, and nothing else: the
    capacities stay folded. *)
Ltac buffer_fields :=
  cbn [error_count file_path line_no block_id thread_id format_string
       format_args_sizes format_args arg_count arg_offset].

(** ** Machine arithmetic *)

Lemma atomicInc_changes old val :
  0 < val -> snd (atomicInc old val) <> old.
Proof.
  intros Hval. unfold atomicInc. simpl.
  destruct (Z.leb_spec val old); lia.
Qed.

Lemma atomicInc_below old val :
  old < val -> atomicInc old val = (old, old + 1).
Proof.
  intros Hlt. unfold atomicInc.
  destruct (Z.leb_spec val old); [lia | reflexivity].
Qed.

Lemma to_uint_small z : 0 <= z < 2 ^ 32 -> to_uint z = z.
Proof. intros Hz. unfold to_uint. apply Z.mod_small. exact Hz. Qed.

Lemma to_uint_add_l a b : to_uint (to_uint a + b) = to_uint (a + b).
Proof. unfold to_uint. apply Zplus_mod_idemp_l. Qed.

Lemma to_uint_add_r a b : to_uint (a + to_uint b) = to_uint (a + b).
Proof. unfold to_uint. apply Zplus_mod_idemp_r. Qed.

Lemma to_int_small z : - 2 ^ 31 <= z < 2 ^ 31 -> to_int z = z.
Proof.
  intros Hz. unfold to_int. rewrite Z.mod_small; lia.
Qed.

Lemma uint_add_small a b :
  Z.of_nat a + Z.of_nat b < 2 ^ 32 ->
  DeviceException.uint_add a b = (a + b)%nat.
Proof.
  intros Hsum. unfold DeviceException.uint_add.
  rewrite to_uint_small by lia. lia.
Qed.

Lemma uint_add_bounded a b :
  (a <= ARG_BUFF_LEN)%nat -> (b <= FORMAT_BUFF_LEN + 1)%nat ->
  DeviceException.uint_add a b = (a + b)%nat.
Proof.
  intros Ha Hb. apply uint_add_small.
  assert (Z.of_nat ARG_BUFF_LEN = 4096) as Hlen by reflexivity.
  assert (Z.of_nat (FORMAT_BUFF_LEN + 1) = 4097) as Hfmt by reflexivity.
  lia.
Qed.

Lemma uint_add_fits a b :
  (a + b <= ARG_BUFF_LEN)%nat -> DeviceException.uint_add a b = (a + b)%nat.
Proof.
  intros Hfit. apply uint_add_small.
  assert (Z.of_nat ARG_BUFF_LEN = 4096) as Hlen by reflexivity. lia.
Qed.

(** ** Copies into the exception buffer *)

Lemma bytes_at_length src n : length (bytes_at src n) = n.
Proof. unfold bytes_at. rewrite length_map. apply length_seq. Qed.

Lemma memcpy_length dst off src n :
  (off + n <= length dst)%nat -> length (memcpy dst off src n) = length dst.
Proof.
  intros Hfit. unfold memcpy.
  rewrite !length_app, length_take, bytes_at_length, length_drop. lia.
Qed.

(** A copy that does not fit leaves the field longer than it was. *)
Lemma memcpy_overflow dst off src n :
  (off <= length dst < off + n)%nat ->
  length (memcpy dst off src n) = (off + n)%nat.
Proof.
  intros Hover. unfold memcpy.
  rewrite !length_app, length_take, bytes_at_length, length_drop. lia.
Qed.

Lemma strlen_loop_bounds c fuel : forall eos,
  (eos <= DeviceException.strlen_loop c eos fuel <= eos + fuel)%nat.
Proof.
  induction fuel as [|fuel IH]; intros eos;
    cbn [DeviceException.strlen_loop]; [lia|].
  destruct (is_nul (c_read c eos) || (FORMAT_BUFF_LEN <=? eos)%nat); [lia|].
  specialize (IH (S eos)). lia.
Qed.

(** [strlen] is bounded by the capacity of the format buffer (plus the
    terminator), whatever field the result is used for. *)
Lemma strlen_bounds c :
  (1 <= DeviceException.strlen c <= FORMAT_BUFF_LEN + 1)%nat.
Proof.
  unfold DeviceException.strlen.
  pose proof (strlen_loop_bounds c FORMAT_BUFF_LEN 0%nat). lia.
Qed.

Lemma strlen_loop_stops c fuel : forall eos n,
  (eos <= n < eos + fuel)%nat -> (n < FORMAT_BUFF_LEN)%nat ->
  (forall i, (eos <= i < n)%nat -> is_nul (c_read c i) = false) ->
  is_nul (c_read c n) = true ->
  DeviceException.strlen_loop c eos fuel = n.
Proof.
  induction fuel as [|fuel IH]; intros eos n Hn Hcap Hno Hnul; [lia|].
  cbn [DeviceException.strlen_loop].
  destruct (decide (eos = n)) as [->|Hne].
  - rewrite Hnul. reflexivity.
  - rewrite Hno by lia.
    destruct (Nat.leb_spec FORMAT_BUFF_LEN eos) as [Hge|_]; [lia|].
    cbn [orb].
    apply IH; [lia | lia | | exact Hnul]. intros i Hi. apply Hno. lia.
Qed.

(** On a string shorter than the bound, [strlen] is the length with the
    terminator. *)
Lemma strlen_exact c :
  (length c < FORMAT_BUFF_LEN)%nat ->
  (forall i, (i < length c)%nat -> is_nul (c_read c i) = false) ->
  DeviceException.strlen c = (length c + 1)%nat.
Proof.
  intros Hshort Hno. unfold DeviceException.strlen.
  rewrite (strlen_loop_stops c FORMAT_BUFF_LEN 0%nat (length c));
    [reflexivity | lia | exact Hshort | |].
  - intros i Hi. apply Hno. lia.
  - unfold c_read. rewrite nth_overflow by lia. reflexivity.
Qed.

Lemma format_eos_bounds c fuel : forall eos,
  (eos <= DeviceException.format_eos c eos fuel <= eos + fuel)%nat.
Proof.
  induction fuel as [|fuel IH]; intros eos;
    cbn [DeviceException.format_eos]; [lia|].
  destruct (is_nul (c_read c eos)); [lia|].
  specialize (IH (S eos)). lia.
Qed.

Lemma store_arg_within b size src :
  within_capacity b -> args_in_bounds b ->
  (arg_count b < MAX_ARGS)%nat -> (arg_offset b + size <= ARG_BUFF_LEN)%nat ->
  within_capacity (DeviceException.store_arg b size src)
  /\ args_in_bounds (DeviceException.store_arg b size src)
  /\ format_args_sizes (DeviceException.store_arg b size src) !! arg_count b
     = Some size.
Proof.
  intros (Hfile & Hfmt & Hsizes & Hargs) [Hcount Hoff] Hlt Hfit.
  unfold within_capacity, args_in_bounds, DeviceException.store_arg.
  buffer_fields. rewrite (uint_add_fits _ _ Hfit).
  rewrite length_insert, memcpy_length by lia.
  repeat split; try assumption; try lia.
  apply list_lookup_insert_eq. lia.
Qed.

Lemma subformat_arg_within b a :
  within_capacity b -> args_in_bounds b ->
  within_capacity (DeviceException.subformat_arg b a)
  /\ args_in_bounds (DeviceException.subformat_arg b a).
Proof.
  intros Hcap Hin.
  destruct a as [T HT v|s]; cbn [DeviceException.subformat_arg];
    unfold DeviceException.subformat, DeviceException.subformat_cstr.
  - destruct (Nat.ltb_spec (arg_count b) MAX_ARGS); [|auto].
    destruct (Nat.leb_spec (arg_offset b + sizeof T) ARG_BUFF_LEN); [|auto].
    edestruct store_arg_within as (? & ? & _); eauto.
  - destruct (Nat.ltb_spec (arg_count b) MAX_ARGS); [|auto].
    destruct (Nat.leb_spec
                (DeviceException.uint_add (arg_offset b)
                   (DeviceException.strlen s)) ARG_BUFF_LEN) as [Hfit|];
      [|auto].
    rewrite uint_add_bounded in Hfit
      by first [exact (proj2 Hin) | apply strlen_bounds].
    edestruct store_arg_within as (? & ? & _); eauto.
Qed.

Lemma subformat_recurse_within args : forall b,
  within_capacity b -> args_in_bounds b ->
  within_capacity (DeviceException.subformat_recurse b args)
  /\ args_in_bounds (DeviceException.subformat_recurse b args).
Proof.
  induction args as [|a args IH]; intros b Hcap Hin;
    cbn [DeviceException.subformat_recurse]; [auto|].
  destruct (subformat_arg_within b a Hcap Hin) as [Hcap' Hin'].
  apply IH; assumption.
Qed.

(** The format string and the arguments stay inside their fields. *)
Lemma setMessage_within e format args b :
  within_capacity b -> args_in_bounds b ->
  within_capacity (DeviceException.setMessage e format args b)
  /\ args_in_bounds (DeviceException.setMessage e format args b).
Proof.
  intros Hcap Hin. unfold DeviceException.setMessage.
  destruct (DeviceException.hasError e); [|auto].
  destruct (negb (is_nul (c_read (format_string b) 0))); [auto|].
  cbv zeta. apply subformat_recurse_within; [|exact Hin].
  destruct Hcap as (Hfile & Hfmt & Hsizes & Hargs).
  unfold within_capacity. buffer_fields.
  pose proof (format_eos_bounds format FORMAT_BUFF_LEN 0%nat).
  rewrite memcpy_length by (rewrite Hfmt; lia). auto.
Qed.

(** The file path stays inside its field when the path, with its
    terminator, is no longer than the field. *)
Lemma construct_body_within h file line bid tid b :
  (DeviceException.strlen file <= FILE_BUFF_LEN)%nat ->
  within_capacity b ->
  within_capacity (DeviceException.construct_body h file line bid tid b).
Proof.
  intros Hlen (Hfile & Hfmt & Hsizes & Hargs).
  unfold DeviceException.construct_body. destruct h; [|repeat split; auto].
  unfold within_capacity. buffer_fields.
  rewrite memcpy_length by (rewrite Hfile; lia). auto.
Qed.

(** A whole [DTHROW] stays inside the buffer when the path fits. *)
Lemma DTHROW_within file line bid tid format args b :
  (DeviceException.strlen file <= FILE_BUFF_LEN)%nat ->
  within_capacity b -> args_in_bounds b ->
  within_capacity (DeviceException.DTHROW file line bid tid format args b)
  /\ args_in_bounds (DeviceException.DTHROW file line bid tid format args b).
Proof.
  intros Hlen Hcap Hin.
  unfold DeviceException.DTHROW, DeviceException.construct,
    DeviceException.getErrorCount, atomicInc.
  apply setMessage_within.
  - apply construct_body_within; [exact Hlen|].
    destruct Hcap as (? & ? & ? & ?). repeat split; assumption.
  - unfold DeviceException.construct_body.
    destruct (error_count b =? 0); exact Hin.
Qed.

Lemma strlen_loop_lower c n fuel : forall eos,
  (n <= eos + fuel)%nat -> (n <= FORMAT_BUFF_LEN)%nat ->
  (forall i, (eos <= i < n)%nat -> is_nul (c_read c i) = false) ->
  (n <= DeviceException.strlen_loop c eos fuel \/ n <= eos)%nat.
Proof.
  induction fuel as [|fuel IH]; intros eos Hn Hcap Hno;
    cbn [DeviceException.strlen_loop]; [lia|].
  destruct (Nat.le_gt_cases n eos) as [Hle|Hgt]; [lia|].
  rewrite Hno by lia.
  destruct (Nat.leb_spec FORMAT_BUFF_LEN eos) as [Hge|_]; [lia|].
  cbn [orb].
  destruct (IH (S eos)) as [H|H]; [lia | lia | | lia |].
  - intros i Hi. apply Hno. lia.
  - pose proof (strlen_loop_bounds c fuel (S eos)). lia.
Qed.

(** A path without a terminator among its first [FILE_BUFF_LEN] bytes is
    copied beyond the end of [file_path]. *)
Lemma long_path_overflows file line bid tid b :
  within_capacity b ->
  (forall i, (i < FILE_BUFF_LEN)%nat -> is_nul (c_read file i) = false) ->
  (FILE_BUFF_LEN <
   length (file_path (DeviceException.construct_body true file line bid tid b)))%nat.
Proof.
  intros (Hfile & _) Hno.
  unfold DeviceException.construct_body. buffer_fields.
  assert (Hlen : (FILE_BUFF_LEN < DeviceException.strlen file)%nat).
  { unfold DeviceException.strlen.
    destruct (strlen_loop_lower file FILE_BUFF_LEN FORMAT_BUFF_LEN 0%nat)
      as [H|H].
    - unfold FILE_BUFF_LEN, FORMAT_BUFF_LEN. lia.
    - unfold FILE_BUFF_LEN, FORMAT_BUFF_LEN. lia.
    - intros i Hi. apply Hno. lia.
    - lia.
    - unfold FILE_BUFF_LEN in H. lia. }
  rewrite memcpy_overflow by lia. lia.
Qed.

(** C8, evaluated on the code.  The specification has no more than
    [FILE_BUFF_LEN] bytes written into [file_path].  For a source path
    of 1024 characters the constructor's [strlen] answers 1025: it is
    bounded by [FORMAT_BUFF_LEN], not by the capacity of the field it is
    copied into, and the copy runs one byte past the end of [file_path]. *)
Theorem file_path_copy_exceeds_capacity :
  let file := repeat x61 1024 in
  let buff := DeviceException.construct_body true file 13 (Uint3 0 0 0)
                (Uint3 0 0 0) clean in
  within_capacity clean
  /\ DeviceException.strlen file = 1025%nat
  /\ length (file_path buff) = 1025%nat
  /\ ~ within_capacity buff.
Proof.
  cbv zeta.
  assert (Hclean : within_capacity clean).
  { unfold within_capacity, clean. buffer_fields.
    rewrite !repeat_length. auto. }
  assert (Hlen : DeviceException.strlen (repeat x61 1024) = 1025%nat)
    by (vm_compute; reflexivity).
  assert (Hfield : length (file_path
            (DeviceException.construct_body true (repeat x61 1024) 13
               (Uint3 0 0 0) (Uint3 0 0 0) clean)) = 1025%nat).
  { unfold DeviceException.construct_body. buffer_fields.
    rewrite Hlen, memcpy_overflow; [reflexivity|].
    unfold clean. buffer_fields. rewrite repeat_length.
    unfold FILE_BUFF_LEN. lia. }
  repeat split; try assumption; try apply Hclean.
  intros (Hfile & _). rewrite Hfield in Hfile.
  unfold FILE_BUFF_LEN in Hfile. lia.
Qed.

(** ** Ownership of the error report in a launch *)

Module LaunchFacts.
Import Launch Ownership.

Lemma claimed_le ss : (claimed ss <= length ss)%nat.
Proof. induction ss as [|[] ss IH]; simpl; lia. Qed.

Lemma claimed_replicate n : claimed (replicate n Pending) = 0%nat.
Proof. induction n; simpl; auto. Qed.

Lemma claimed_pending_lt ss : forall i,
  ss !! i = Some Pending -> (claimed ss < length ss)%nat.
Proof.
  induction ss as [|s ss IH]; intros [|i] Hi; simpl in *; try discriminate.
  - injection Hi as ->. pose proof (claimed_le ss). simpl. lia.
  - specialize (IH i Hi). destruct s; simpl; lia.
Qed.

Lemma claimed_pos ss : forall i s,
  ss !! i = Some s -> is_pending s = false -> (1 <= claimed ss)%nat.
Proof.
  induction ss as [|s0 ss IH]; intros [|i] s Hi Hs; simpl in *;
    try discriminate.
  - injection Hi as ->. rewrite Hs. lia.
  - specialize (IH i s Hi Hs). lia.
Qed.

Lemma claimed_insert_pending ss s' : forall i,
  ss !! i = Some Pending -> is_pending s' = false ->
  claimed (<[i := s']> ss) = S (claimed ss).
Proof.
  induction ss as [|s ss IH]; intros [|i] Hi Hs'; simpl in *;
    try discriminate.
  - injection Hi as ->. rewrite Hs'. simpl. lia.
  - rewrite (IH i Hi Hs'). lia.
Qed.

Lemma claimed_insert_same ss s s' : forall i,
  ss !! i = Some s -> is_pending s = false -> is_pending s' = false ->
  claimed (<[i := s']> ss) = claimed ss.
Proof.
  induction ss as [|s0 ss IH]; intros [|i] Hi Hs Hs'; simpl in *;
    try discriminate.
  - injection Hi as ->. rewrite Hs, Hs'. reflexivity.
  - rewrite (IH i Hi Hs Hs'). reflexivity.
Qed.

Lemma claimed_finished ss :
  forallb is_finished ss = true -> claimed ss = length ss.
Proof.
  induction ss as [|s ss IH]; simpl; [auto|].
  intros [Hs Hss]%andb_prop. rewrite (IH Hss).
  destruct s; simpl in *; try discriminate; reflexivity.
Qed.

Lemma forallb_lookup ss i s :
  forallb is_finished ss = true -> ss !! i = Some s -> is_finished s = true.
Proof.
  revert i. induction ss as [|s0 ss IH]; intros [|i]; simpl;
    try discriminate.
  - intros [Hs _]%andb_prop [= ->]. exact Hs.
  - intros [_ Hss]%andb_prop Hi. eauto.
Qed.

(** *** The counter is apart from the detail fields *)

Lemma detail_set_error_count c b : detail (set_error_count c b) = detail b.
Proof. reflexivity. Qed.

Lemma set_error_count_detail b :
  set_error_count (error_count b) (detail b) = b.
Proof. destruct b. reflexivity. Qed.

Lemma construct_body_counter h file line bid tid c b :
  DeviceException.construct_body h file line bid tid (set_error_count c b)
  = set_error_count c (DeviceException.construct_body h file line bid tid b).
Proof.
  unfold DeviceException.construct_body. destruct h; [|reflexivity].
  unfold set_error_count. buffer_fields. reflexivity.
Qed.

Lemma store_arg_counter c b size src :
  DeviceException.store_arg (set_error_count c b) size src
  = set_error_count c (DeviceException.store_arg b size src).
Proof. reflexivity. Qed.

Lemma subformat_arg_counter c b a :
  DeviceException.subformat_arg (set_error_count c b) a
  = set_error_count c (DeviceException.subformat_arg b a).
Proof.
  destruct a as [T HT v|s]; cbn [DeviceException.subformat_arg];
    unfold DeviceException.subformat, DeviceException.subformat_cstr;
    rewrite store_arg_counter;
    unfold set_error_count at 1 2; buffer_fields.
  - destruct (arg_count b <? MAX_ARGS)%nat; [|reflexivity].
    destruct (arg_offset b + sizeof T <=? ARG_BUFF_LEN)%nat; reflexivity.
  - destruct (arg_count b <? MAX_ARGS)%nat; [|reflexivity].
    destruct (DeviceException.uint_add (arg_offset b)
                (DeviceException.strlen s) <=? ARG_BUFF_LEN)%nat;
      reflexivity.
Qed.

Lemma subformat_recurse_counter c args : forall b,
  DeviceException.subformat_recurse (set_error_count c b) args
  = set_error_count c (DeviceException.subformat_recurse b args).
Proof.
  induction args as [|a args IH]; intros b;
    cbn [DeviceException.subformat_recurse]; [reflexivity|].
  rewrite subformat_arg_counter. apply IH.
Qed.

Lemma setMessage_counter e format args c b :
  DeviceException.setMessage e format args (set_error_count c b)
  = set_error_count c (DeviceException.setMessage e format args b).
Proof.
  unfold DeviceException.setMessage.
  destruct (DeviceException.hasError e); [|reflexivity].
  unfold set_error_count at 1. buffer_fields.
  destruct (negb (is_nul (c_read (format_string b) 0))); [reflexivity|].
  cbv zeta. rewrite <- subformat_recurse_counter.
  unfold set_error_count. buffer_fields. reflexivity.
Qed.

Lemma construct_body_detail h file line bid tid b :
  detail (DeviceException.construct_body h file line bid tid b)
  = DeviceException.construct_body h file line bid tid (detail b).
Proof. unfold detail. symmetry. apply construct_body_counter. Qed.

Lemma setMessage_detail e format args b :
  detail (DeviceException.setMessage e format args b)
  = DeviceException.setMessage e format args (detail b).
Proof. unfold detail. symmetry. apply setMessage_counter. Qed.

(** *** The invariant of a launch *)

Lemma invariant_start fs : invariant fs (start fs).
Proof.
  split; unfold start; cbn [stages buffer].
  - apply length_replicate.
  - rewrite claimed_replicate. reflexivity.
  - left. split; [apply claimed_replicate | reflexivity].
Qed.

Lemma stage_owner_not_pending s : stage_owner s = true -> is_pending s = false.
Proof. destruct s; simpl; congruence. Qed.

Lemma unclaimed_all_pending ss j s :
  claimed ss = 0%nat -> ss !! j = Some s -> stage_owner s = false.
Proof.
  intros Hzero Hj. destruct (stage_owner s) eqn:Hs; [|reflexivity].
  pose proof (claimed_pos ss j s Hj (stage_owner_not_pending s Hs)). lia.
Qed.

Lemma invariant_step fs i st :
  Z.of_nat (length fs) <= UINT_MAX ->
  invariant fs st -> invariant fs (step fs i st).
Proof.
  intros Hmax [Hlen Hcount Hown]. unfold step.
  unfold owned_by in Hown.
  destruct (fs !! i) as [f|] eqn:Hf; [|split; assumption].
  destruct (stages st !! i) as [[|e|e|e]|] eqn:Hi; try (split; assumption).
  - (* the atomic increment *)
    pose proof (claimed_pending_lt _ _ Hi) as Hlt.
    unfold DeviceException.getErrorCount.
    rewrite atomicInc_below by lia.
    split; cbn [stages buffer].
    + rewrite length_insert. exact Hlen.
    + rewrite (claimed_insert_pending _ _ _ Hi) by reflexivity.
      unfold set_error_count; buffer_fields. lia.
    + right. unfold owned_by. cbn [stages buffer].
      rewrite detail_set_error_count.
      destruct Hown as [[Hzero Hclean]|[o (fo & so & Hfo & Hso & Hown & Hothers & Hdetail)]].
      * exists i, f, (Entered (DeviceException.Exception true)).
        rewrite Hcount, Hzero. cbn [Z.of_nat Z.eqb].
        repeat split; try assumption; try reflexivity.
        -- apply list_lookup_insert_eq. eapply lookup_lt_Some; eauto.
        -- intros j s' Hne Hj. rewrite list_lookup_insert_ne in Hj by auto.
           eapply unclaimed_all_pending; eauto.
      * assert (Hne : o <> i).
        { intros ->. rewrite Hi in Hso. injection Hso as <-. discriminate. }
        exists o, fo, so.
        rewrite list_lookup_insert_ne by auto.
        repeat split; try assumption.
        intros j s' Hjo Hj.
        destruct (decide (j = i)) as [->|Hji].
        -- rewrite list_lookup_insert_eq in Hj
             by (eapply lookup_lt_Some; eauto).
           injection Hj as <-. cbn [stage_owner DeviceException.hasError].
           pose proof (claimed_pos _ _ _ Hso (stage_owner_not_pending _ Hown)).
           rewrite Hcount. apply Z.eqb_neq. lia.
        -- rewrite list_lookup_insert_ne in Hj by auto. eauto.
  - (* the body of the constructor *)
    split; cbn [stages buffer].
    + rewrite length_insert. exact Hlen.
    + rewrite (claimed_insert_same _ _ _ _ Hi) by reflexivity.
      rewrite <- Hcount. unfold DeviceException.construct_body.
      destruct (DeviceException.hasError e); reflexivity.
    + right. unfold owned_by. cbn [stages buffer].
      destruct Hown as [[Hzero _]|[o (fo & so & Hfo & Hso & Hown & Hothers & Hdetail)]].
      { pose proof (claimed_pos _ _ _ Hi eq_refl). lia. }
      destruct (decide (o = i)) as [->|Hne].
      * rewrite Hi in Hso. injection Hso as <-.
        rewrite Hf in Hfo. injection Hfo as <-.
        exists i, f, (Constructed e).
        cbn [stage_owner] in Hown |- *.
        repeat split; try assumption.
        -- apply list_lookup_insert_eq. eapply lookup_lt_Some; eauto.
        -- intros j s' Hji Hj. rewrite list_lookup_insert_ne in Hj by auto.
           eauto.
        -- rewrite Hown, construct_body_detail, Hdetail. reflexivity.
      * exists o, fo, so.
        rewrite list_lookup_insert_ne by auto.
        assert (He : DeviceException.hasError e = false)
          by (apply (Hothers i (Entered e)); auto).
        repeat split; try assumption.
        -- intros j s' Hjo Hj.
           destruct (decide (j = i)) as [->|Hji].
           ++ rewrite list_lookup_insert_eq in Hj
                by (eapply lookup_lt_Some; eauto).
              injection Hj as <-. exact He.
           ++ rewrite list_lookup_insert_ne in Hj by auto. eauto.
        -- rewrite He. exact Hdetail.
  - (* setMessage *)
    split; cbn [stages buffer].
    + rewrite length_insert. exact Hlen.
    + rewrite (claimed_insert_same _ _ _ _ Hi) by reflexivity.
      rewrite <- Hcount.
      rewrite <- (set_error_count_detail (buffer st)) at 1.
      rewrite LaunchFacts.setMessage_counter. reflexivity.
    + right. unfold owned_by. cbn [stages buffer].
      destruct Hown as [[Hzero _]|[o (fo & so & Hfo & Hso & Hown & Hothers & Hdetail)]].
      { pose proof (claimed_pos _ _ _ Hi eq_refl). lia. }
      destruct (decide (o = i)) as [->|Hne].
      * rewrite Hi in Hso. injection Hso as <-.
        rewrite Hf in Hfo. injection Hfo as <-.
        exists i, f, (Finished e).
        cbn [stage_owner] in Hown |- *.
        repeat split; try assumption.
        -- apply list_lookup_insert_eq. eapply lookup_lt_Some; eauto.
        -- intros j s' Hji Hj. rewrite list_lookup_insert_ne in Hj by auto.
           eauto.
        -- rewrite setMessage_detail, Hdetail.
           destruct e as [h]. cbn [DeviceException.hasError] in Hown.
           rewrite Hown. reflexivity.
      * exists o, fo, so.
        rewrite list_lookup_insert_ne by auto.
        assert (He : DeviceException.hasError e = false)
          by (apply (Hothers i (Constructed e)); auto).
        repeat split; try assumption.
        -- intros j s' Hjo Hj.
           destruct (decide (j = i)) as [->|Hji].
           ++ rewrite list_lookup_insert_eq in Hj
                by (eapply lookup_lt_Some; eauto).
              injection Hj as <-. exact He.
           ++ rewrite list_lookup_insert_ne in Hj by auto. eauto.
        -- unfold DeviceException.setMessage. rewrite He. exact Hdetail.
Qed.

Lemma invariant_run fs schedule : forall st,
  Z.of_nat (length fs) <= UINT_MAX ->
  invariant fs st -> invariant fs (run fs schedule st).
Proof.
  induction schedule as [|i schedule IH]; intros st Hmax Hinv; [exact Hinv|].
  apply IH; [exact Hmax|]. apply invariant_step; assumption.
Qed.

(** *** A thread keeps the [hasError] it was given *)

Lemma step_keeps_owner fs i st j s :
  stages st !! j = Some s -> is_pending s = false ->
  exists s', stages (step fs i st) !! j = Some s'
             /\ is_pending s' = false /\ stage_owner s' = stage_owner s.
Proof.
  intros Hj Hs. unfold step.
  destruct (fs !! i) as [f|]; [|eauto].
  destruct (stages st !! i) as [[|e|e|e]|] eqn:Hi; try solve [eauto].
  - destruct (DeviceException.getErrorCount (buffer st)) as [old buff].
    cbn [stages]. rewrite list_lookup_insert_ne; [eauto|].
    intros ->. rewrite Hi in Hj. injection Hj as <-. discriminate.
  - cbn [stages]. destruct (decide (i = j)) as [->|Hne].
    + rewrite list_lookup_insert_eq by (eapply lookup_lt_Some; eauto).
      rewrite Hi in Hj. injection Hj as <-. eauto.
    + rewrite list_lookup_insert_ne by auto. eauto.
  - cbn [stages]. destruct (decide (i = j)) as [->|Hne].
    + rewrite list_lookup_insert_eq by (eapply lookup_lt_Some; eauto).
      rewrite Hi in Hj. injection Hj as <-. eauto.
    + rewrite list_lookup_insert_ne by auto. eauto.
Qed.

Lemma run_keeps_owner fs schedule j : forall st s,
  stages st !! j = Some s -> is_pending s = false ->
  exists s', stages (run fs schedule st) !! j = Some s'
             /\ stage_owner s' = stage_owner s.
Proof.
  induction schedule as [|i schedule IH]; intros st s Hj Hs; [eauto|].
  destruct (step_keeps_owner fs i st j s Hj Hs) as (s1 & Hj1 & Hs1 & Ho1).
  destruct (IH _ _ Hj1 Hs1) as (s' & Hj' & Ho').
  exists s'. split; [exact Hj' | congruence].
Qed.

(** A step of a thread without [hasError] changes the counter at most. *)
Lemma step_detail fs j st :
  (forall s, stages (step fs j st) !! j = Some s -> stage_owner s = false) ->
  detail (buffer (step fs j st)) = detail (buffer st).
Proof.
  unfold step.
  destruct (fs !! j) as [f|]; [|reflexivity].
  destruct (stages st !! j) as [[|e|e|e]|] eqn:Hj;
    try (intros _; reflexivity).
  - cbn [stages buffer]. intros Hno.
    rewrite list_lookup_insert_eq in Hno by (eapply lookup_lt_Some; eauto).
    specialize (Hno _ eq_refl). cbn [stage_owner] in Hno.
    rewrite Hno. reflexivity.
  - cbn [stages buffer]. intros Hno.
    rewrite list_lookup_insert_eq in Hno by (eapply lookup_lt_Some; eauto).
    specialize (Hno _ eq_refl). cbn [stage_owner] in Hno.
    unfold DeviceException.setMessage. rewrite Hno. reflexivity.
Qed.

(** The three steps of one thread, taken without interruption, are the
    sequential [DTHROW]. *)
Lemma steps_are_DTHROW fs i f st :
  fs !! i = Some f -> stages st !! i = Some Pending ->
  buffer (run fs [i; i; i] st)
  = DeviceException.DTHROW (file f) (line f) (block f) (thread f) (format f)
      (args f) (buffer st).
Proof.
  intros Hf Hi.
  assert (Hlt : (i < length (stages st))%nat)
    by (eapply lookup_lt_Some; eauto).
  unfold run. cbn [foldl]. unfold step at 3. rewrite Hf, Hi.
  unfold DeviceException.DTHROW, DeviceException.construct.
  destruct (DeviceException.getErrorCount (buffer st)) as [old buff].
  unfold step at 2. cbn [stages buffer].
  rewrite Hf, list_lookup_insert_eq by exact Hlt.
  unfold step. cbn [stages buffer].
  rewrite Hf, list_lookup_insert_eq by (rewrite length_insert; exact Hlt).
  reflexivity.
Qed.

Lemma run_app fs s1 s2 st :
  run fs (s1 ++ s2) st = run fs s2 (run fs s1 st).
Proof. unfold run. apply foldl_app. Qed.

End LaunchFacts.

(** Ownership, report by report.  In a launch in which [F >= 1] reports
    are made, each entry of [fs] being one [DTHROW] (and [F] fits the 32-bit
    counter), whatever the interleaving of their steps: once all of them
    have returned, the error counter equals [F]; exactly one report, the
    one whose increment returned 0, has [hasError], and the detail fields
    are what that report alone writes into a clean buffer; every step of
    any other report leaves all fields but the counter as they were. *)
Theorem first_claimant_owns_report (fs : list Launch.failure)
    (schedule : list nat) :
  (1 <= length fs)%nat ->
  Z.of_nat (length fs) <= UINT_MAX ->
  Launch.finished (Launch.run fs schedule (Launch.start fs)) = true ->
  let final := Launch.run fs schedule (Launch.start fs) in
  error_count (Launch.buffer final) = Z.of_nat (length fs)
  /\ exists o f,
      fs !! o = Some f
      /\ Launch.stages final !! o
         = Some (Launch.Finished (DeviceException.Exception true))
      /\ (forall j, j <> o -> (j < length fs)%nat ->
            Launch.stages final !! j
            = Some (Launch.Finished (DeviceException.Exception false)))
      /\ Launch.buffer final
         = set_error_count (Z.of_nat (length fs)) (Launch.report f)
      /\ (forall n j, schedule !! n = Some j -> j <> o ->
            Launch.detail
              (Launch.buffer
                 (Launch.run fs (take (S n) schedule) (Launch.start fs)))
            = Launch.detail
                (Launch.buffer
                   (Launch.run fs (take n schedule) (Launch.start fs)))).
Proof.
  intros Hpos Hmax Hfin final.
  pose proof (LaunchFacts.invariant_run fs schedule _ Hmax
                (LaunchFacts.invariant_start fs)) as [Hlen Hcount Hown].
  fold final in Hlen, Hcount, Hown.
  unfold Launch.finished in Hfin. fold final in Hfin.
  pose proof (LaunchFacts.claimed_finished _ Hfin) as Hall.
  rewrite Hall, Hlen in Hcount.
  split; [exact Hcount|].
  destruct Hown as [[Hzero _]|[o (f & s & Hf & Hs & Hown & Hothers & Hdetail)]];
    [lia|].
  assert (Hfinished : forall j s', Launch.stages final !! j = Some s' ->
            s' = Launch.Finished
                   (DeviceException.Exception (Ownership.stage_owner s'))).
  { intros j s' Hj. pose proof (LaunchFacts.forallb_lookup _ _ _ Hfin Hj) as Hd.
    destruct s' as [|e|e|e]; try discriminate. destruct e. reflexivity. }
  exists o, f. split; [exact Hf|]. split; [|split; [|split]].
  - rewrite Hs. f_equal. rewrite (Hfinished _ _ Hs), Hown. simpl.
    destruct s as [|e|e|e]; simpl in Hown |- *; congruence.
  - intros j Hne Hlt.
    destruct (Launch.stages final !! j) as [s'|] eqn:Hj.
    + rewrite (Hfinished _ _ Hj), (Hothers _ _ Hne Hj). reflexivity.
    + apply lookup_ge_None in Hj. lia.
  - rewrite <- (LaunchFacts.set_error_count_detail (Launch.buffer final)).
    rewrite Hcount, Hdetail. rewrite (Hfinished _ _ Hs). reflexivity.
  - intros n j Hn Hne.
    rewrite (take_S_r _ _ _ Hn), LaunchFacts.run_app.
    set (before := Launch.run fs (take n schedule) (Launch.start fs)).
    cbn [Launch.run foldl].
    apply LaunchFacts.step_detail. intros s1 Hs1.
    destruct (Ownership.is_pending s1) eqn:Hp.
    { destruct s1; try discriminate. reflexivity. }
    assert (Hrest : final
              = Launch.run fs (drop (S n) schedule) (Launch.step fs j before)).
    { unfold final. rewrite <- (take_drop (S n) schedule) at 1.
      rewrite LaunchFacts.run_app, (take_S_r _ _ _ Hn), LaunchFacts.run_app.
      reflexivity. }
    destruct (LaunchFacts.run_keeps_owner fs (drop (S n) schedule) j _ _ Hs1 Hp)
      as (s2 & Hs2 & Hsame).
    rewrite <- Hrest in Hs2. rewrite <- Hsame. eapply Hothers; eauto.
Qed.

Lemma first_claimant_owns_report_witness :
  error_count
    (Launch.buffer
       (Launch.run Fixture.failures Fixture.schedule
          (Launch.start Fixture.failures))) = 2
  /\ line_no
       (Launch.buffer
          (Launch.run Fixture.failures Fixture.schedule
             (Launch.start Fixture.failures))) = 40.
Proof.
  destruct (first_claimant_owns_report Fixture.failures Fixture.schedule)
    as (Hcount & o & f & Hf & Ho & _ & Hbuffer & _).
  - cbn [length Fixture.failures]. lia.
  - vm_compute. discriminate.
  - vm_compute. reflexivity.
  - split; [exact Hcount|].
    assert (Hone : o = 1%nat).
    { destruct o as [|[|o]]; [discriminate Ho | reflexivity | discriminate Ho]. }
    subst o. injection Hf as <-. rewrite Hbuffer. reflexivity.
Defined.

(** C1.  The counter counts reports, not failing threads.  [DTHROW] does not
    stop the thread that calls it, so a thread can report again.  Here one
    thread sets two variables of its new agent while agent output is not
    enabled: its first report takes the counter from 0 to 1 and records its
    location (line 357 of DeviceAPI.h, its block and thread coordinates, the
    path and the message); its second report takes the counter to 2 and
    changes nothing else.  The counter ends at 2 for a single failing
    thread. *)
Theorem one_thread_is_counted_twice :
  let setVariable :=
    @DeviceAPI.AgentOut.setVariable Fixture.build Fixture.thread byte _ in
  let path := @FILE_DeviceAPI_h Fixture.build in
  let message := DeviceAPI.AgentOut.output_disabled_message in
  exists this d1 d2,
    setVariable Fixture.agent_out_disabled "x" x01 Fixture.device
    = Some (this, d1)
    /\ setVariable this "y" x02 d1 = Some (this, d2)
    /\ error_count (error_buffer Fixture.device) = 0
    /\ error_count (error_buffer d1) = 1
    /\ error_count (error_buffer d2) = 2
    /\ line_no (error_buffer d1) = 357
    /\ block_id (error_buffer d1) = blockIdx Fixture.thread
    /\ thread_id (error_buffer d1) = threadIdx Fixture.thread
    /\ take (S (length path)) (file_path (error_buffer d1)) = path ++ [x00]
    /\ take (S (length message)) (format_string (error_buffer d1))
       = message ++ [x00]
    /\ Launch.detail (error_buffer d2) = Launch.detail (error_buffer d1).
Proof.
  intros setVariable path message.
  exists Fixture.agent_out_disabled.
  exists (reported Fixture.thread path 357 message [] Fixture.device).
  exists (reported Fixture.thread path 357 message []
            (reported Fixture.thread path 357 message [] Fixture.device)).
  repeat split; vm_compute; reflexivity.
Qed.

(** ** cuRVE reads and writes *)

Module CurveFacts.
Import Curve.

Section Access.
Context (T : Type) `{DeviceType T}.

Lemma write_defined N name hash (v : T) index array_index tbl :
  registered (sizeof T) N name hash index array_index tbl ->
  exists b,
    tbl !! (hash, name) = Some b /\
    write T N name hash v index array_index tbl
    = Some (<[(hash, name) :=
                Binding (type_size b) (array_length b)
                  (<[cell N index array_index := encode v]> (buffer b))]>
              tbl).
Proof.
  intros (b & Hb & Hsize & Hlen & Harr & Hidx & Hcell).
  exists b. split; [exact Hb|]. unfold write. rewrite Hb.
  rewrite decide_True by auto. reflexivity.
Qed.

(** A value written is the value read back. *)
Lemma read_write N name hash (v : T) index array_index tbl tbl' :
  registered (sizeof T) N name hash index array_index tbl ->
  write T N name hash v index array_index tbl = Some tbl' ->
  read T N name hash index array_index tbl' = Some (decode (encode v)).
Proof.
  intros Hreg Hw.
  destruct (write_defined N name hash v index array_index tbl Hreg)
    as (b & Hb & Hw').
  rewrite Hw' in Hw. injection Hw as <-.
  destruct Hreg as (b0 & Hb0 & Hsize & Hlen & Harr & Hidx & Hcell).
  rewrite Hb in Hb0. injection Hb0 as <-.
  unfold read. rewrite lookup_insert_eq. cbn [type_size array_length buffer].
  rewrite decide_True by auto.
  rewrite list_lookup_insert_eq by exact Hcell. reflexivity.
Qed.

(** A write keeps every registration. *)
Lemma write_keeps_registered N name hash (v : T) index array_index tbl tbl'
    size' N' name' hash' index' array_index' :
  write T N name hash v index array_index tbl = Some tbl' ->
  registered size' N' name' hash' index' array_index' tbl ->
  registered size' N' name' hash' index' array_index' tbl'.
Proof.
  unfold write. destruct (tbl !! (hash, name)) as [b|] eqn:Hb; [|discriminate].
  case_decide; [|discriminate]. intros [= <-].
  intros (b' & Hb' & Hreg).
  destruct (decide ((hash, name) = (hash', name'))) as [Heq|Hne].
  - rewrite Heq in Hb. rewrite Hb in Hb'. injection Hb' as <-.
    eexists. rewrite Heq, lookup_insert_eq. split; [reflexivity|].
    cbn [type_size array_length buffer]. rewrite length_insert. exact Hreg.
  - exists b'. rewrite lookup_insert_ne by exact Hne. auto.
Qed.

(** A write leaves the cells of other variables alone. *)
Lemma read_write_other N name hash (v : T) index array_index tbl tbl'
    (T' : Type) `{DeviceType T'} N' name' hash' index' array_index' :
  write T N name hash v index array_index tbl = Some tbl' ->
  (hash, name) <> (hash', name') ->
  read T' N' name' hash' index' array_index' tbl'
  = read T' N' name' hash' index' array_index' tbl.
Proof.
  unfold write. destruct (tbl !! (hash, name)) as [b|] eqn:Hb; [|discriminate].
  case_decide; [|discriminate]. intros [= <-] Hne.
  unfold read. rewrite lookup_insert_ne by exact Hne. reflexivity.
Qed.
End Access.

Lemma Z_of_byte_of_Z z : Z_of_byte (byte_of_Z z) = z mod 256.
Proof.
  unfold Z_of_byte, byte_of_Z.
  assert (Hr : 0 <= z mod 256 < 256) by (apply Z.mod_pos_bound; lia).
  destruct (Byte.of_N (Z.to_N (z mod 256))) as [b|] eqn:Hb.
  - apply Byte.to_of_N in Hb. unfold default. cbn [from_option id].
    rewrite Hb. lia.
  - apply Byte.of_N_None_iff in Hb. lia.
Qed.

(** An [unsigned int] survives the copy through its four bytes. *)
Lemma decode_encode_u32 z : 0 <= z < 2 ^ 32 -> decode_u32 (encode_u32 z) = z.
Proof.
  intros Hz. unfold decode_u32, encode_u32, c_read. cbn [nth].
  rewrite !Z_of_byte_of_Z.
  change (2 ^ 8) with 256. change (2 ^ 16) with 65536.
  change (2 ^ 24) with 16777216. change (2 ^ 32) with 4294967296 in Hz.
  pose proof (Z.div_mod z 256 ltac:(lia)).
  pose proof (Z.mod_pos_bound z 256 ltac:(lia)).
  pose proof (Z.div_mod (z / 256) 256 ltac:(lia)).
  pose proof (Z.mod_pos_bound (z / 256) 256 ltac:(lia)).
  pose proof (Z.div_mod (z / 256 / 256) 256 ltac:(lia)).
  pose proof (Z.mod_pos_bound (z / 256 / 256) 256 ltac:(lia)).
  assert (H16 : z / 65536 = z / 256 / 256)
    by (rewrite Z.div_div by lia; reflexivity).
  assert (H24 : z / 16777216 = z / 256 / 256 / 256)
    by (rewrite !Z.div_div by lia; reflexivity).
  rewrite H16, H24.
  assert (0 <= z / 256 / 256 / 256 < 256).
  { rewrite <- H24. split; [apply Z.div_pos; lia|].
    apply Z.div_lt_upper_bound; lia. }
  rewrite (Z.mod_small (z / 256 / 256 / 256)) by lia. lia.
Qed.

End CurveFacts.

(** ** Reserved names *)

(** C3.  A [setVariable] whose name starts with ['_'] returns at once, on
    the agent accessor (scalar and array form) and on the message output
    channel: the device state, cells and error buffer alike, is the one
    before the call. *)
Theorem reserved_setVariable_is_silent (thread : Thread) (T : Type)
    `{DeviceType T} (N : nat) (api : ReadOnlyDeviceAPI.t)
    (out : MsgArray.Out.t) (name : string) (array_index : Z) (v : T)
    (d : Device) :
  reserved name = true ->
  DeviceAPI.setVariable thread T api name v d = Some (tt, d)
  /\ DeviceAPI.setVariable_array thread T N api name array_index v d
     = Some (tt, d)
  /\ MsgArray.Out.setVariable thread T out name v d = Some (tt, d).
Proof.
  intros Hres.
  unfold DeviceAPI.setVariable, DeviceAPI.setVariable_array,
    MsgArray.Out.setVariable.
  rewrite Hres. repeat split.
Qed.

Lemma reserved_setVariable_is_silent_witness :
  DeviceAPI.setVariable Fixture.thread byte Fixture.api "_id" x2a Fixture.device
  = Some (tt, Fixture.device)
  /\ DeviceAPI.setVariable_array Fixture.thread byte 3 Fixture.api "_id" 2 x2a
       Fixture.device
     = Some (tt, Fixture.device)
  /\ MsgArray.Out.setVariable Fixture.thread byte Fixture.message_out "_id" x2a
       Fixture.device
     = Some (tt, Fixture.device).
Proof.
  apply (reserved_setVariable_is_silent Fixture.thread byte 3 Fixture.api
           Fixture.message_out "_id" 2 x2a Fixture.device).
  reflexivity.
Defined.

(** C10.  With agent output enabled, [AgentOut::setVariable] with a name
    that starts with ['_'] returns before the write and before [genID]:
    the counter, the scan flags, the new agent's fields and the object's
    id are as before, in the scalar and in the array form; a thread whose
    setter calls all use such names leaves no trace of an output agent. *)
Theorem reserved_setter_generates_no_id `{Build} (thread : Thread) (T : Type)
    `{DeviceType T} (N : nat) (this : DeviceAPI.AgentOut.t) (name : string)
    (array_index : Z) (v : T) (calls : list (string * T)) (d : Device) :
  DeviceAPI.AgentOut.agent_output_hash this <> 0 ->
  reserved name = true ->
  Forall (fun c => reserved (fst c) = true) calls ->
  DeviceAPI.AgentOut.setVariable thread T this name v d = Some (this, d)
  /\ DeviceAPI.AgentOut.setVariable_array thread T N this name array_index v d
     = Some (this, d)
  /\ AgentOutCalls.set_each thread T this calls d = Some (this, d).
Proof.
  intros Hon Hres Hall.
  assert (Hhash : negb (DeviceAPI.AgentOut.agent_output_hash this =? 0) = true).
  { apply negb_true_iff, Z.eqb_neq. exact Hon. }
  assert (Hone : forall n (w : T), reserved n = true ->
            DeviceAPI.AgentOut.setVariable thread T this n w d = Some (this, d)).
  { intros n w Hn. unfold DeviceAPI.AgentOut.setVariable.
    rewrite Hhash, Hn. reflexivity. }
  split; [apply Hone; exact Hres|]. split.
  - unfold DeviceAPI.AgentOut.setVariable_array. rewrite Hhash, Hres.
    reflexivity.
  - induction Hall as [|[n w] calls Hn _ IH]; [reflexivity|].
    cbn [AgentOutCalls.set_each]. unfold mbind, dev_bind.
    rewrite (Hone n w Hn). exact IH.
Qed.

Lemma reserved_setter_generates_no_id_witness :
  @DeviceAPI.AgentOut.setVariable Fixture.build Fixture.thread byte _
    Fixture.agent_out "_id" x2a Fixture.device
  = Some (Fixture.agent_out, Fixture.device)
  /\ @DeviceAPI.AgentOut.setVariable_array Fixture.build Fixture.thread byte _ 3
       Fixture.agent_out "_id" 2 x2a Fixture.device
     = Some (Fixture.agent_out, Fixture.device)
  /\ @AgentOutCalls.set_each Fixture.build Fixture.thread byte _
       Fixture.agent_out [("_id", x2a); ("_x", x00)] Fixture.device
     = Some (Fixture.agent_out, Fixture.device).
Proof.
  apply (@reserved_setter_generates_no_id Fixture.build Fixture.thread byte _ 3
           Fixture.agent_out "_id" 2 x2a [("_id", x2a); ("_x", x00)]
           Fixture.device).
  - discriminate.
  - reflexivity.
  - repeat constructor.
Defined.

(** ** Reported errors *)

(** A sequential [DTHROW] moves the counter by one atomic increment. *)
Lemma DTHROW_error_count file line bid tid format args b :
  error_count (DeviceException.DTHROW file line bid tid format args b)
  = snd (atomicInc (error_count b) UINT_MAX).
Proof.
  unfold DeviceException.DTHROW, DeviceException.construct,
    DeviceException.getErrorCount, atomicInc.
  rewrite LaunchFacts.construct_body_counter, LaunchFacts.setMessage_counter.
  reflexivity.
Qed.

Lemma DTHROW_reports file line bid tid format args b :
  error_count (DeviceException.DTHROW file line bid tid format args b)
  <> error_count b.
Proof.
  rewrite DTHROW_error_count. apply atomicInc_changes. reflexivity.
Qed.

Lemma DTHROW_checked `{Build} thread file line format args d :
  NO_SEATBELTS = false ->
  DTHROW thread file line format args d
  = Some (tt, reported thread file line format args d).
Proof. intros Hon. unfold DTHROW. rewrite Hon. reflexivity. Qed.

(** C7.  With the checks compiled in and agent output not enabled for the
    function (hash 0), [AgentOut::setVariable] (both forms) and
    [AgentOut::getID] report through [DTHROW] and do nothing else: cuRVE,
    the next-id counter and the scan flags are untouched, the object keeps
    its id, and [getID] returns [ID_NOT_SET]. *)
Theorem disabled_agent_output_reports `{Build} (thread : Thread) (T : Type)
    `{DeviceType T} (N : nat) (this : DeviceAPI.AgentOut.t) (name : string)
    (array_index : Z) (v : T) (d : Device) :
  SEATBELTS = true -> NO_SEATBELTS = false ->
  DeviceAPI.AgentOut.agent_output_hash this = 0 ->
  let report line :=
    reported thread FILE_DeviceAPI_h line
      DeviceAPI.AgentOut.output_disabled_message [] d in
  DeviceAPI.AgentOut.setVariable thread T this name v d
  = Some (this, report 357)
  /\ DeviceAPI.AgentOut.setVariable_array thread T N this name array_index v d
     = Some (this, report 378)
  /\ DeviceAPI.AgentOut.getID thread this d
     = Some ((ID_NOT_SET, this), report 390)
  /\ forall line,
       error_count (error_buffer (report line)) <> error_count (error_buffer d)
       /\ curve (report line) = curve d
       /\ agent_output_nextID (report line) = agent_output_nextID d
       /\ scan_flag_agentOutput (report line) = scan_flag_agentOutput d.
Proof.
  intros Hbelts Hchecked Hoff report.
  unfold DeviceAPI.AgentOut.setVariable, DeviceAPI.AgentOut.setVariable_array,
    DeviceAPI.AgentOut.getID.
  rewrite Hoff, Hbelts. cbn [Z.eqb negb].
  unfold mbind, dev_bind. rewrite !DTHROW_checked by exact Hchecked.
  repeat split. apply DTHROW_reports.
Qed.

Lemma disabled_agent_output_reports_witness :
  @DeviceAPI.AgentOut.getID Fixture.build Fixture.thread
    Fixture.agent_out_disabled Fixture.device
  = Some ((0, Fixture.agent_out_disabled),
          reported Fixture.thread (@FILE_DeviceAPI_h Fixture.build) 390
            DeviceAPI.AgentOut.output_disabled_message [] Fixture.device).
Proof.
  destruct (@disabled_agent_output_reports Fixture.build Fixture.thread byte _
              3 Fixture.agent_out_disabled "x" 0 x2a Fixture.device
              eq_refl eq_refl eq_refl)
    as (_ & _ & HgetID & _).
  exact HgetID.
Defined.

(** ** Array message input *)

(** C6.  With the checks compiled in, [at(index)] reports through [DTHROW]
    exactly when [index >= length], and in either case returns the handle
    bound to [index].  On a handle, [getVariable] returns the stored field
    when the bound index is below [length], and otherwise the zero of [T],
    leaving the device state, error buffer included, as it was. *)
Theorem at_reports_and_getVariable_defaults `{Build} (thread : Thread)
    (T : Type) `{DeviceType T} (this : MsgArray.In.t) (index : Z)
    (name : string) (d : Device) :
  NO_SEATBELTS = false ->
  let msg := MsgArray.Message.Make this index in
  let report :=
    reported thread FILE_Array_h 273 MsgArray.In.out_of_bounds_message
      [Scalar Z index; Scalar Z (MsgArray.In.length this)] d in
  (exists d', MsgArray.In_at thread this index d = Some (msg, d')
     /\ (error_count (error_buffer d') <> error_count (error_buffer d)
         <-> MsgArray.In.length this <= index)
     /\ (MsgArray.In.length this <= index -> d' = report)
     /\ (index < MsgArray.In.length this -> d' = d))
  /\ (index < MsgArray.In.length this ->
      forall b cell,
        curve d !! (MsgArray.In.combined_hash this, name) = Some b ->
        Curve.type_size b = sizeof T -> Curve.array_length b = 1%nat ->
        0 <= index ->
        Curve.buffer b !! Z.to_nat index = Some cell ->
        MsgArray.Message.getVariable T msg name d = Some (decode cell, d))
  /\ (MsgArray.In.length this <= index ->
      MsgArray.Message.getVariable T msg name d = Some (zero_value T, d)).
Proof.
  intros Hchecked msg report. split; [|split].
  - unfold MsgArray.In_at. rewrite Hchecked. unfold mbind, dev_bind.
    destruct (Z.leb_spec (MsgArray.In.length this) index) as [Hout|Hin].
    + rewrite DTHROW_checked by exact Hchecked. exists report.
      repeat split; try lia; try (intros; reflexivity).
      intros _. apply DTHROW_reports.
    + exists d. repeat split; try lia; try (intros; reflexivity).
  - intros Hin b cell Hb Hsize Hlen Hpos Hcell. subst msg.
    unfold MsgArray.Message.getVariable. cbn [MsgArray.Message.index
      MsgArray.Message._parent].
    destruct (Z.ltb_spec index (MsgArray.In.length this)); [|lia].
    unfold curve_read, Curve.getVariable, Curve.read. rewrite Hb.
    rewrite decide_True by (repeat split; auto; lia).
    unfold Curve.cell. replace (Z.to_nat index * 1 + Z.to_nat 0)%nat
      with (Z.to_nat index) by lia.
    rewrite Hcell. reflexivity.
  - intros Hout. subst msg. unfold MsgArray.Message.getVariable.
    cbn [MsgArray.Message.index MsgArray.Message._parent].
    destruct (Z.ltb_spec index (MsgArray.In.length this)); [lia|].
    reflexivity.
Qed.

Lemma at_reports_and_getVariable_defaults_witness :
  @MsgArray.Message.getVariable byte _
     (MsgArray.Message.Make Fixture.message_in 12) "x" Fixture.device
  = Some (x00, Fixture.device).
Proof.
  destruct (@at_reports_and_getVariable_defaults Fixture.build Fixture.thread
              byte _ Fixture.message_in 12 "x" Fixture.device eq_refl)
    as (_ & _ & Hdefault).
  apply Hdefault. unfold Fixture.message_in. cbn [MsgArray.In.length]. lia.
Defined.

(** ** Agent variables *)

(** C2.  For a registered name that does not start with ['_'], a value
    written with [setVariable] is the value the same thread reads with
    [getVariable], for scalars and, at the same in-bounds element index,
    for arrays. *)
Theorem setVariable_getVariable_roundtrip (thread : Thread) (T : Type)
    `{DeviceTypeOk T} (N : nat) (api : ReadOnlyDeviceAPI.t) (name : string)
    (array_index : Z) (v : T) (d : Device) :
  reserved name = false ->
  (Curve.registered (sizeof T) 1 name
     (ReadOnlyDeviceAPI.agent_func_name_hash api) (thread_index thread) 0
     (curve d) ->
   exists d',
     DeviceAPI.setVariable thread T api name v d = Some (tt, d')
     /\ ReadOnlyDeviceAPI.getVariable thread T api name d' = Some (v, d'))
  /\ (Curve.registered (sizeof T) N name
        (ReadOnlyDeviceAPI.agent_func_name_hash api) (thread_index thread)
        array_index (curve d) ->
      exists d',
        DeviceAPI.setVariable_array thread T N api name array_index v d
        = Some (tt, d')
        /\ ReadOnlyDeviceAPI.getVariable_array thread T N api name array_index
             d'
           = Some (v, d')).
Proof.
  intros Hname.
  assert (Hboth : forall M j,
    Curve.registered (sizeof T) M name
      (ReadOnlyDeviceAPI.agent_func_name_hash api) (thread_index thread) j
      (curve d) ->
    exists c,
      Curve.write T M name (ReadOnlyDeviceAPI.agent_func_name_hash api) v
        (thread_index thread) j (curve d) = Some c
      /\ Curve.read T M name (ReadOnlyDeviceAPI.agent_func_name_hash api)
           (thread_index thread) j c = Some v).
  { intros M j Hreg.
    destruct (CurveFacts.write_defined T M name _ v _ _ _ Hreg)
      as (b & _ & Hw).
    eexists. split; [exact Hw|].
    rewrite (CurveFacts.read_write T M name _ v _ _ _ _ Hreg Hw).
    rewrite decode_encode. reflexivity. }
  split; intros Hreg; destruct (Hboth _ _ Hreg) as (c & Hw & Hr).
  - exists (set_curve c d).
    unfold DeviceAPI.setVariable, ReadOnlyDeviceAPI.getVariable.
    rewrite Hname. unfold curve_write, curve_read, mbind, dev_bind,
      Curve.setAgentVariable, Curve.getAgentVariable.
    rewrite Hw. cbn [curve set_curve]. rewrite Hr. split; reflexivity.
  - exists (set_curve c d).
    unfold DeviceAPI.setVariable_array, ReadOnlyDeviceAPI.getVariable_array.
    rewrite Hname. unfold curve_write, curve_read, mbind, dev_bind,
      Curve.setAgentArrayVariable, Curve.getAgentArrayVariable.
    rewrite Hw. cbn [curve set_curve]. rewrite Hr. split; reflexivity.
Qed.

Lemma registered_fixture_x :
  Curve.registered 1 1 "x" 7 (thread_index Fixture.thread) 0
    Fixture.table.
Proof.
  exists (Curve.Binding 1 1 [[x00]; [x00]]).
  split; [apply lookup_insert_eq|].
  repeat split; try reflexivity; try discriminate.
  vm_compute. lia.
Defined.

Lemma setVariable_getVariable_roundtrip_witness :
  exists d',
    DeviceAPI.setVariable Fixture.thread byte Fixture.api "x" x2a Fixture.device
    = Some (tt, d')
    /\ ReadOnlyDeviceAPI.getVariable Fixture.thread byte Fixture.api "x" d'
       = Some (x2a, d').
Proof.
  destruct (setVariable_getVariable_roundtrip Fixture.thread byte 3 Fixture.api
              "x" 2 x2a Fixture.device eq_refl) as [Hscalar _].
  apply Hscalar. exact registered_fixture_x.
Defined.

(** ** Identity of an output agent *)

Module GenIDFacts.
Import DeviceAPI.AgentOut AgentOutCalls.

Section WithBuild.
Context `{Build} (thread : Thread).

(** [genID] on an object without id: one increment, the id stored under
    ["_id"] at the thread's slot, the thread's scan flag set. *)
Lemma genID_fresh this d :
  id this = ID_NOT_SET ->
  Curve.registered 4 1 "_id" (agent_output_hash this)
    (thread_index thread) 0 (curve d) ->
  (Z.to_nat (thread_index thread) < length (scan_flag_agentOutput d))%nat ->
  exists c,
    Curve.write Z 1 "_id" (agent_output_hash this) (agent_output_nextID d)
      (thread_index thread) 0 (curve d) = Some c
    /\ genID thread this d
       = Some (Out (agent_output_hash this) (agent_output_nextID d),
               set_scan_flag
                 (<[Z.to_nat (thread_index thread) := 1]>
                    (scan_flag_agentOutput d))
                 (set_curve c
                    (set_nextID
                       (snd (atomicInc (agent_output_nextID d) UINT_MAX)) d))).
Proof.
  intros Hid Hreg Hslot.
  destruct (@CurveFacts.write_defined Z uint_DeviceType 1 "_id" _
              (agent_output_nextID d) _ _ _ Hreg) as (b & _ & Hw).
  eexists. split; [exact Hw|].
  unfold genID. rewrite Hid, Z.eqb_refl. unfold atomicInc.
  cbn [agent_output_hash id]. unfold mbind, dev_bind, curve_write.
  unfold Curve.setNewAgentVariable. cbn [curve set_nextID].
  rewrite Hw. unfold mark_scan_flag. cbn [scan_flag_agentOutput set_curve].
  rewrite decide_True by exact Hslot. reflexivity.
Qed.

(** [genID] on an object that has its id does nothing. *)
Lemma genID_assigned this d :
  id this <> ID_NOT_SET -> genID thread this d = Some (this, d).
Proof.
  intros Hid. unfold genID.
  destruct (Z.eqb_spec (id this) ID_NOT_SET); [contradiction|reflexivity].
Qed.

(** Once the id is assigned, a call keeps it and leaves the counter and
    the scan flags alone; [getID] answers the id. *)
Lemma assigned_id_is_reused this c d :
  agent_output_hash this <> 0 -> id this <> ID_NOT_SET ->
  call_registered (agent_output_hash this) (thread_index thread) c (curve d) ->
  (exists d', run_call thread c this d = Some (this, d')
     /\ agent_output_nextID d' = agent_output_nextID d
     /\ scan_flag_agentOutput d' = scan_flag_agentOutput d)
  /\ getID thread this d = Some ((id this, this), d).
Proof.
  intros Hon Hid Hreg.
  assert (Hhash : negb (agent_output_hash this =? 0) = true)
    by (apply negb_true_iff, Z.eqb_neq; exact Hon).
  assert (HgetID : getID thread this d = Some ((id this, this), d)).
  { unfold getID. rewrite Hhash. unfold mbind, dev_bind.
    rewrite genID_assigned by exact Hid. reflexivity. }
  split; [|exact HgetID].
  destruct c as [T HT name v|T HT N name j v|]; cbn [run_call call_registered] in *.
  - unfold setVariable. rewrite Hhash.
    destruct (reserved name); [exists d; auto|].
    destruct (CurveFacts.write_defined T 1 name _ v _ _ _ (Hreg eq_refl))
      as (b & _ & Hw).
    unfold mbind, dev_bind, curve_write, Curve.setNewAgentVariable.
    rewrite Hw. rewrite genID_assigned by exact Hid. eauto.
  - unfold setVariable_array. rewrite Hhash.
    destruct (reserved name); [exists d; auto|].
    destruct (CurveFacts.write_defined T N name _ v _ _ _ (Hreg eq_refl))
      as (b & _ & Hw).
    unfold mbind, dev_bind, curve_write, Curve.setNewAgentArrayVariable.
    rewrite Hw. rewrite genID_assigned by exact Hid. eauto.
  - unfold mbind, dev_bind. rewrite HgetID. exists d. auto.
Qed.

(** Once the id is assigned, a setter stores its value over whatever the
    field held: the last write is the one that stays. *)
Lemma later_write_wins (T : Type) `{DeviceTypeOk T} this name (v : T) d :
  agent_output_hash this <> 0 -> id this <> ID_NOT_SET ->
  reserved name = false ->
  Curve.registered (sizeof T) 1 name (agent_output_hash this)
    (thread_index thread) 0 (curve d) ->
  exists d',
    run_call thread (CallSet T name v) this d = Some (this, d')
    /\ Curve.read T 1 name (agent_output_hash this) (thread_index thread) 0
         (curve d') = Some v
    /\ Curve.read Z 1 "_id" (agent_output_hash this) (thread_index thread) 0
         (curve d')
       = Curve.read Z 1 "_id" (agent_output_hash this) (thread_index thread) 0
           (curve d).
Proof.
  intros Hon Hid Hname Hreg.
  assert (Hhash : negb (agent_output_hash this =? 0) = true)
    by (apply negb_true_iff, Z.eqb_neq; exact Hon).
  destruct (CurveFacts.write_defined T 1 name _ v _ _ _ Hreg) as (b & _ & Hw).
  cbn [run_call]. unfold setVariable. rewrite Hhash, Hname. cbn [negb].
  unfold mbind, dev_bind, curve_write, Curve.setNewAgentVariable.
  rewrite Hw. rewrite genID_assigned by exact Hid.
  eexists. split; [reflexivity|]. cbn [curve set_curve]. split.
  - rewrite (CurveFacts.read_write T 1 name _ v _ _ _ _ Hreg Hw).
    rewrite decode_encode. reflexivity.
  - apply (CurveFacts.read_write_other T 1 name _ v _ _ _ _ Z 1 "_id" _ _ _ Hw).
    intros [= ->]. vm_compute in Hname. discriminate Hname.
Qed.

(** The first call that reaches [genID]. *)
Lemma first_call_generates this c d :
  agent_output_hash this <> 0 -> id this = ID_NOT_SET ->
  reaches_genID c = true ->
  0 <= agent_output_nextID d < 2 ^ 32 ->
  Curve.registered 4 1 "_id" (agent_output_hash this)
    (thread_index thread) 0 (curve d) ->
  call_registered (agent_output_hash this) (thread_index thread) c (curve d) ->
  (Z.to_nat (thread_index thread) < length (scan_flag_agentOutput d))%nat ->
  exists d',
    run_call thread c this d
    = Some (Out (agent_output_hash this) (agent_output_nextID d), d')
    /\ agent_output_nextID d'
       = snd (atomicInc (agent_output_nextID d) UINT_MAX)
    /\ scan_flag_agentOutput d'
       = <[Z.to_nat (thread_index thread) := 1]> (scan_flag_agentOutput d)
    /\ Curve.read Z 1 "_id" (agent_output_hash this) (thread_index thread) 0
         (curve d')
       = Some (agent_output_nextID d).
Proof.
  intros Hon Hid Hreach Hrange Hidreg Hreg Hslot.
  assert (Hhash : negb (agent_output_hash this =? 0) = true)
    by (apply negb_true_iff, Z.eqb_neq; exact Hon).
  assert (Hgen : forall d1,
    agent_output_nextID d1 = agent_output_nextID d ->
    scan_flag_agentOutput d1 = scan_flag_agentOutput d ->
    Curve.registered 4 1 "_id" (agent_output_hash this)
      (thread_index thread) 0 (curve d1) ->
    exists d',
      genID thread this d1
      = Some (Out (agent_output_hash this) (agent_output_nextID d), d')
      /\ agent_output_nextID d'
         = snd (atomicInc (agent_output_nextID d) UINT_MAX)
      /\ scan_flag_agentOutput d'
         = <[Z.to_nat (thread_index thread) := 1]> (scan_flag_agentOutput d)
      /\ Curve.read Z 1 "_id" (agent_output_hash this) (thread_index thread) 0
           (curve d')
         = Some (agent_output_nextID d)).
  { intros d1 Hnext Hscan Hreg1.
    destruct (genID_fresh this d1 Hid Hreg1) as (c1 & Hw & Hg).
    { rewrite Hscan. exact Hslot. }
    rewrite Hnext, Hscan in Hg. rewrite Hnext in Hw.
    eexists. split; [exact Hg|]. cbn [agent_output_nextID set_scan_flag
      set_curve set_nextID scan_flag_agentOutput curve].
    repeat split.
    rewrite (@CurveFacts.read_write Z uint_DeviceType 1 "_id" _ _ _ _ _ _
               Hreg1 Hw).
    change (@decode Z uint_DeviceType (@encode Z uint_DeviceType
              (agent_output_nextID d)))
      with (decode_u32 (encode_u32 (agent_output_nextID d))).
    rewrite CurveFacts.decode_encode_u32 by exact Hrange. reflexivity. }
  destruct c as [T HT name v|T HT N name j v|];
    cbn [run_call call_registered reaches_genID] in *.
  - apply negb_true_iff in Hreach. unfold setVariable.
    rewrite Hhash, Hreach. cbn [negb].
    destruct (CurveFacts.write_defined T 1 name _ v _ _ _ (Hreg Hreach))
      as (b & _ & Hw).
    unfold mbind, dev_bind, curve_write, Curve.setNewAgentVariable.
    rewrite Hw. apply Hgen; try reflexivity. cbn [curve set_curve].
    eapply (CurveFacts.write_keeps_registered T); eauto.
  - apply negb_true_iff in Hreach. unfold setVariable_array.
    rewrite Hhash, Hreach.
    destruct (CurveFacts.write_defined T N name _ v _ _ _ (Hreg Hreach))
      as (b & _ & Hw).
    unfold mbind, dev_bind, curve_write, Curve.setNewAgentArrayVariable.
    rewrite Hw. apply Hgen; try reflexivity. cbn [curve set_curve].
    eapply (CurveFacts.write_keeps_registered T); eauto.
  - unfold getID. rewrite Hhash. unfold mbind, dev_bind.
    destruct (Hgen d eq_refl eq_refl Hidreg) as (d' & Hg & Hrest).
    rewrite Hg. exists d'. split; [reflexivity | exact Hrest].
Qed.

End WithBuild.
End GenIDFacts.

(** C4 as the specification states it, at a concrete call: output is
    enabled and the
    thread's first call on the accessor is [setVariable("_id", 42)].  No
    identity is generated: the object still has no id, the counter still
    reads 1 and the thread's scan flag is still 0. *)
Lemma first_setter_with_reserved_name_generates_nothing :
  exists this' d',
    @DeviceAPI.AgentOut.setVariable Fixture.build Fixture.thread byte _
      (@DeviceAPI.AgentOut.construct Fixture.build 9) "_id" x2a Fixture.device
    = Some (this', d')
    /\ DeviceAPI.AgentOut.id this' = @ID_NOT_SET Fixture.build
    /\ agent_output_nextID d' = agent_output_nextID Fixture.device
    /\ scan_flag_agentOutput d' !! Z.to_nat (thread_index Fixture.thread)
       = Some 0.
Proof.
  exists (@DeviceAPI.AgentOut.construct Fixture.build 9), Fixture.device.
  repeat split.
Qed.

(** C4, amended.  With agent output enabled, the first call that is
    [getID] or a setter with a name not starting with ['_'] generates the
    identity, provided the counter does not hold [ID_NOT_SET] and cuRVE
    accepts the writes: the object's id becomes the counter's value, the
    counter takes one atomic increment, the id is stored under ["_id"] at
    the thread's slot and the thread's scan flag is 1.  Every later call of
    the thread, on whatever device state it runs, keeps that id, leaves the
    counter and the scan flags alone, and [getID] answers the id; a later
    setter stores its value, so that the last write of a field wins. *)
Theorem first_triggering_call_assigns_id_once `{Build} (thread : Thread)
    (this : DeviceAPI.AgentOut.t) (c : AgentOutCalls.call) (d : Device) :
  DeviceAPI.AgentOut.agent_output_hash this <> 0 ->
  DeviceAPI.AgentOut.id this = ID_NOT_SET ->
  AgentOutCalls.reaches_genID c = true ->
  0 <= agent_output_nextID d < 2 ^ 32 ->
  agent_output_nextID d <> ID_NOT_SET ->
  Curve.registered 4 1 "_id" (DeviceAPI.AgentOut.agent_output_hash this)
    (thread_index thread) 0 (curve d) ->
  AgentOutCalls.call_registered (DeviceAPI.AgentOut.agent_output_hash this)
    (thread_index thread) c (curve d) ->
  (Z.to_nat (thread_index thread) < length (scan_flag_agentOutput d))%nat ->
  exists this' d',
    AgentOutCalls.run_call thread c this d = Some (this', d')
    /\ DeviceAPI.AgentOut.id this' = agent_output_nextID d
    /\ agent_output_nextID d'
       = snd (atomicInc (agent_output_nextID d) UINT_MAX)
    /\ scan_flag_agentOutput d' !! Z.to_nat (thread_index thread) = Some 1
    /\ Curve.read Z 1 "_id" (DeviceAPI.AgentOut.agent_output_hash this)
         (thread_index thread) 0 (curve d')
       = Some (agent_output_nextID d)
    /\ forall c2 d2,
         AgentOutCalls.call_registered
           (DeviceAPI.AgentOut.agent_output_hash this) (thread_index thread)
           c2 (curve d2) ->
         (exists d3,
            AgentOutCalls.run_call thread c2 this' d2 = Some (this', d3)
            /\ agent_output_nextID d3 = agent_output_nextID d2
            /\ scan_flag_agentOutput d3 = scan_flag_agentOutput d2)
         /\ DeviceAPI.AgentOut.getID thread this' d2
            = Some ((agent_output_nextID d, this'), d2)
         /\ forall (T : Type) (HT : DeviceType T) (HTok : DeviceTypeOk T)
                   name (v : T),
              reserved name = false ->
              Curve.registered (sizeof T) 1 name
                (DeviceAPI.AgentOut.agent_output_hash this)
                (thread_index thread) 0 (curve d2) ->
              exists d3,
                AgentOutCalls.run_call thread (AgentOutCalls.CallSet T name v)
                  this' d2 = Some (this', d3)
                /\ Curve.read T 1 name
                     (DeviceAPI.AgentOut.agent_output_hash this)
                     (thread_index thread) 0 (curve d3) = Some v
                /\ Curve.read Z 1 "_id"
                     (DeviceAPI.AgentOut.agent_output_hash this)
                     (thread_index thread) 0 (curve d3)
                   = Curve.read Z 1 "_id"
                       (DeviceAPI.AgentOut.agent_output_hash this)
                       (thread_index thread) 0 (curve d2).
Proof.
  intros Hon Hid Hreach Hrange Hsentinel Hidreg Hreg Hslot.
  destruct (GenIDFacts.first_call_generates thread this c d Hon Hid Hreach
              Hrange Hidreg Hreg Hslot) as (d' & Hrun & Hnext & Hscan & Hread).
  eexists _, d'. split; [exact Hrun|].
  cbn [DeviceAPI.AgentOut.id DeviceAPI.AgentOut.agent_output_hash].
  split; [reflexivity|]. split; [exact Hnext|]. split.
  { rewrite Hscan. apply list_lookup_insert_eq. exact Hslot. }
  split; [exact Hread|].
  intros c2 d2 Hreg2.
  destruct (GenIDFacts.assigned_id_is_reused thread
              (DeviceAPI.AgentOut.Out
                 (DeviceAPI.AgentOut.agent_output_hash this)
                 (agent_output_nextID d)) c2 d2) as [Hkeep HgetID];
    try assumption.
  split; [exact Hkeep|]. split; [exact HgetID|].
  intros T HT HTok name v Hname Hregv.
  apply (GenIDFacts.later_write_wins thread T
           (DeviceAPI.AgentOut.Out (DeviceAPI.AgentOut.agent_output_hash this)
              (agent_output_nextID d)) name v d2); assumption.
Qed.

Lemma registered_fixture_id :
  Curve.registered 4 1 "_id" 9 (thread_index Fixture.thread) 0
    Fixture.table.
Proof.
  exists (Curve.Binding 4 1 (replicate 2 (encode_u32 0))).
  split; [vm_compute; reflexivity|].
  repeat split; try reflexivity; try discriminate.
  vm_compute. lia.
Defined.

Lemma first_triggering_call_assigns_id_once_witness :
  exists this' d',
    @AgentOutCalls.run_call Fixture.build Fixture.thread
      AgentOutCalls.CallGetID Fixture.agent_out Fixture.device
    = Some (this', d')
    /\ DeviceAPI.AgentOut.id this' = 1
    /\ agent_output_nextID d' = 2.
Proof.
  destruct (@first_triggering_call_assigns_id_once Fixture.build Fixture.thread
              Fixture.agent_out AgentOutCalls.CallGetID Fixture.device)
    as (this' & d' & Hrun & Hid & Hnext & _).
  - discriminate.
  - reflexivity.
  - reflexivity.
  - cbn [agent_output_nextID Fixture.device]. lia.
  - discriminate.
  - exact registered_fixture_id.
  - exact I.
  - vm_compute. lia.
  - exists this', d'. split; [exact Hrun|]. split; [exact Hid|exact Hnext].
Defined.

(** ** The neighbourhood filter *)

Module FilterFacts.
Import MsgArray.In Window.

Lemma offsets_from_begin radius : 1 <= radius ->
  offsets_from (- radius) radius = window radius.
Proof.
  intros Hr. unfold offsets_from, window.
  destruct (Z.ltb_spec (- radius) 0); [|lia].
  rewrite Z.opp_involutive. reflexivity.
Qed.

Lemma offsets_from_end radius : 0 <= radius ->
  offsets_from (radius + 1) radius = [].
Proof.
  intros Hr. unfold offsets_from.
  destruct (Z.ltb_spec (radius + 1) 0); [lia|].
  replace (radius + 1 - (radius + 1)) with 0 by lia. reflexivity.
Qed.

Lemma offsets_from_step k radius :
  k <> 0 -> k <= radius -> 1 <= radius ->
  offsets_from k radius = k :: offsets_from (next_relative k) radius.
Proof.
  intros Hk Hle Hr. unfold offsets_from, next_relative.
  destruct (Z.ltb_spec k 0) as [Hneg|Hpos].
  - rewrite (seqZ_cons k (- k)) by lia. cbn [app]. f_equal.
    destruct (Z.eqb_spec k (-1)) as [->|Hne].
    + cbn [Z.ltb Z.compare]. replace (radius + 1 - 1) with radius by lia.
      reflexivity.
    + destruct (Z.ltb_spec (k + 1) 0); [|lia].
      replace (Z.succ k) with (k + 1) by lia.
      replace (Z.pred (- k)) with (- (k + 1)) by lia. reflexivity.
  - destruct (Z.eqb_spec k (-1)); [lia|].
    destruct (Z.ltb_spec (k + 1) 0); [lia|].
    rewrite (seqZ_cons k (radius + 1 - k)) by lia. f_equal.
    replace (Z.succ k) with (k + 1) by lia.
    replace (Z.pred (radius + 1 - k)) with (radius + 1 - (k + 1)) by lia.
    reflexivity.
Qed.

Section Sound.
Context (f : Filter.t) (Hf : sound f).

(** The absolute bin of an offset of the window or of a sentinel. *)
Lemma wrap_exact k :
  - Filter.radius f <= k <= Filter.radius f + 1 ->
  Filter.Message.wrap f k
  = (Filter.loc f + k + Filter.length f) mod Filter.length f.
Proof.
  destruct Hf as [HL Hloc Hr Hsum Hint]. intros Hk.
  unfold Filter.Message.wrap.
  rewrite to_uint_add_r, to_uint_add_l.
  rewrite to_uint_small by lia. reflexivity.
Qed.

Lemma incr_message_at k :
  - Filter.radius f - 1 <= k <= Filter.radius f ->
  Filter.Message.incr (message_at f k) = message_at f (next_relative k).
Proof.
  destruct Hf as [HL Hloc Hr Hsum Hint]. intros Hk.
  unfold Filter.Message.incr, message_at, next_relative.
  cbn [Filter.Message._parent Filter.Message.relative_cell].
  rewrite (to_int_small (k + 1)) by lia.
  destruct (Z.eqb_spec k (-1)) as [->|Hne].
  - cbn [Z.add Z.eqb Z.pos_sub]. rewrite to_int_small by lia. reflexivity.
  - destruct (Z.eqb_spec (k + 1) 0); [lia|]. reflexivity.
Qed.

Lemma begin_message :
  Filter.begin_ f = Filter.iterator.Make (message_at f (- Filter.radius f)).
Proof.
  destruct Hf as [HL Hloc Hr Hsum Hint].
  unfold Filter.begin_, Filter.iterator.construct, Filter.Message.construct,
    Filter.Message.incr.
  cbn [Filter.Message._parent Filter.Message.relative_cell].
  rewrite (to_int_small (Filter.radius f)) by lia.
  rewrite (to_int_small (- Filter.radius f - 1)) by lia.
  replace (- Filter.radius f - 1 + 1) with (- Filter.radius f) by lia.
  rewrite (to_int_small (- Filter.radius f)) by lia.
  destruct (Z.eqb_spec (- Filter.radius f) 0); [lia|]. reflexivity.
Qed.

Lemma end_message :
  Filter.end_ f = Filter.iterator.Make (message_at f (Filter.radius f + 1)).
Proof.
  destruct Hf as [HL Hloc Hr Hsum Hint].
  unfold Filter.end_, Filter.iterator.construct, Filter.Message.construct,
    Filter.Message.incr.
  cbn [Filter.Message._parent Filter.Message.relative_cell].
  rewrite (to_int_small (Filter.radius f)) by lia.
  rewrite (to_int_small (Filter.radius f + 1)) by lia.
  destruct (Z.eqb_spec (Filter.radius f + 1) 0); [lia|]. reflexivity.
Qed.

(** When the window and the sentinel fit the list without meeting again,
    the sentinel's bin is the bin of no offset of the window. *)
Lemma sentinel_apart k :
  2 * Filter.radius f + 1 < Filter.length f ->
  - Filter.radius f <= k <= Filter.radius f + 1 ->
  (Filter.Message.wrap f k =? Filter.Message.wrap f (Filter.radius f + 1))
  = (k =? Filter.radius f + 1).
Proof.
  intros Hfit Hk. destruct Hf as [HL Hloc Hr Hsum Hint].
  rewrite !wrap_exact by lia.
  destruct (Z.eqb_spec k (Filter.radius f + 1)) as [->|Hne].
  - apply Z.eqb_refl.
  - apply Z.eqb_neq. intros Heq. apply Hne.
    set (L := Filter.length f) in *. set (x := Filter.loc f) in *.
    set (r := Filter.radius f) in *.
    assert (Hmod : (x + (r + 1) + L - (x + k + L)) mod L = 0).
    { rewrite Zminus_mod, Heq, Z.sub_diag. apply Z.mod_0_l. lia. }
    replace (x + (r + 1) + L - (x + k + L)) with (r + 1 - k) in Hmod by lia.
    rewrite Z.mod_small in Hmod by lia. lia.
Qed.

(** The loop over the filter, from the message at offset [k] on. *)
Lemma visit_from fuel : forall k,
  2 * Filter.radius f + 1 < Filter.length f ->
  - Filter.radius f <= k <= Filter.radius f + 1 -> k <> 0 ->
  (Z.to_nat (Filter.radius f + 1 - k) < fuel)%nat ->
  Filter.visit fuel (Filter.iterator.Make (message_at f k)) (Filter.end_ f)
  = Some ((fun j => (Filter.loc f + j + Filter.length f) mod Filter.length f)
            <$> offsets_from k (Filter.radius f)).
Proof.
  induction fuel as [|fuel IH]; intros k Hfit Hk Hk0 Hfuel; [lia|].
  pose proof Hf as [HL Hloc Hr Hsum Hint].
  cbn [Filter.visit]. rewrite end_message.
  unfold Filter.iterator.neq, Filter.Message.neq, Filter.Message.eq.
  cbn [Filter.iterator._message]. unfold message_at at 1 2 3 4.
  cbn [Filter.Message.index_1d Filter.Message._parent].
  rewrite sentinel_apart by assumption. rewrite Z.eqb_refl, andb_true_r.
  destruct (Z.eqb_spec k (Filter.radius f + 1)) as [->|Hne]; cbn [negb].
  - rewrite offsets_from_end by lia. reflexivity.
  - rewrite offsets_from_step by lia. rewrite fmap_cons.
    unfold Filter.iterator.incr, Filter.iterator.deref.
    cbn [Filter.iterator._message].
    rewrite incr_message_at by lia. rewrite <- end_message.
    rewrite IH.
    + unfold Filter.Message.getX, message_at.
      cbn [Filter.Message._parent Filter.Message.relative_cell].
      rewrite wrap_exact by lia. reflexivity.
    + exact Hfit.
    + unfold next_relative. destruct (Z.eqb_spec k (-1)); lia.
    + unfold next_relative. destruct (Z.eqb_spec k (-1)); lia.
    + unfold next_relative. destruct (Z.eqb_spec k (-1)); lia.
Qed.

(** The traversal of a filter whose window does not reach round the list:
    the bins of the offsets [-radius .. -1, 1 .. radius], in this order. *)
Lemma traverse_window fuel :
  2 * Filter.radius f + 1 < Filter.length f ->
  (Z.to_nat (2 * Filter.radius f + 1) < fuel)%nat ->
  Filter.traverse fuel f
  = Some ((fun j => (Filter.loc f + j + Filter.length f) mod Filter.length f)
            <$> window (Filter.radius f)).
Proof.
  intros Hfit Hfuel. pose proof Hf as [HL Hloc Hr Hsum Hint].
  unfold Filter.traverse. rewrite begin_message.
  rewrite visit_from by lia.
  rewrite offsets_from_begin by lia. reflexivity.
Qed.

End Sound.
End FilterFacts.

(** C5 as the specification states it, at list length 10, origin 5, radius
    2: the
    iterator [end()] does not stand at relative offset [radius] = 2 but one
    past it, at 3 (bin 8); the message at offset 2 (bin 7) is the last one
    visited; and the step from offset -1 leads to offset 1, over the
    origin. *)
Lemma end_sentinel_is_one_past_radius :
  let f := MsgArray.In.Filter.construct 10 7 5 2 in
  MsgArray.In.Filter.Message.relative_cell
    (MsgArray.In.Filter.iterator.deref (MsgArray.In.Filter.end_ f)) = 3
  /\ MsgArray.In.Filter.Message.getX
       (MsgArray.In.Filter.iterator.deref (MsgArray.In.Filter.end_ f)) = 8
  /\ MsgArray.In.Filter.traverse 5 f = Some [3; 4; 6; 7]
  /\ MsgArray.In.Filter.Message.relative_cell
       (MsgArray.In.Filter.Message.incr (Window.message_at f (-1))) = 1.
Proof. vm_compute. repeat split. Qed.

(** The sum in [getX] is formed in [unsigned int]: on a list so long that
    [origin + relative + L] passes 2^32 the bin read is not
    [(origin + relative + L) mod L].  Here [L] is 3 * 2^30, the origin 2^31
    and the offset -1: the bin read is 2^30 - 1, not 2^31 - 1. *)
Lemma wide_list_sum_wraps :
  let f := MsgArray.In.Filter.construct (3 * 2 ^ 30) 7 (2 ^ 31) 1 in
  MsgArray.In.Filter.Message.getX (Window.message_at f (-1)) = 2 ^ 30 - 1
  /\ (MsgArray.In.Filter.loc f + -1 + MsgArray.In.Filter.length f)
     mod MsgArray.In.Filter.length f = 2 ^ 31 - 1.
Proof. vm_compute. split; reflexivity. Qed.

(** C5, amended.  On a list of length 10 the filter with origin 5 and
    radius 2 visits the bins 3, 4, 6, 7 in this order, and with origin 0
    the bins 8, 9, 1, 2.  In general, for a filter on which the 32-bit
    arithmetic is exact ([Window.sound]: a non-empty list, [0 <= origin < L],
    [1 <= radius <= L], [origin + L + radius + 1 < 2^32] and
    [radius + 1 < 2^31]): [begin()] stands at relative offset [-radius], the
    first neighbour; [end()] is built from offset [radius] and, advanced
    once like [begin()], is the sentinel at [radius + 1]; a step adds 1 to
    the relative offset and steps over 0; the bin read is
    [(origin + relative + L) mod L]; and a window that does not reach round
    the list ([2 * radius + 1 < L]) is visited whole, in increasing relative
    order. *)
Theorem neighbourhood_iteration (hash : Curve.NamespaceHash)
    (f : MsgArray.In.Filter.t) :
  Window.sound f ->
  MsgArray.In.Filter.traverse 5 (MsgArray.In.Filter.construct 10 hash 5 2)
  = Some [3; 4; 6; 7]
  /\ MsgArray.In.Filter.traverse 5 (MsgArray.In.Filter.construct 10 hash 0 2)
     = Some [8; 9; 1; 2]
  /\ MsgArray.In.Filter.Message.relative_cell
       (MsgArray.In.Filter.iterator.deref (MsgArray.In.Filter.begin_ f))
     = - MsgArray.In.Filter.radius f
  /\ MsgArray.In.Filter.Message.relative_cell
       (MsgArray.In.Filter.iterator.deref (MsgArray.In.Filter.end_ f))
     = MsgArray.In.Filter.radius f + 1
  /\ (forall m,
        MsgArray.In.Filter.Message._parent m = f ->
        - MsgArray.In.Filter.radius f - 1
          <= MsgArray.In.Filter.Message.relative_cell m
          <= MsgArray.In.Filter.radius f ->
        MsgArray.In.Filter.Message.relative_cell
          (MsgArray.In.Filter.Message.incr m)
        = Window.next_relative
            (MsgArray.In.Filter.Message.relative_cell m)
        /\ MsgArray.In.Filter.Message.index_1d
             (MsgArray.In.Filter.Message.incr m)
           = MsgArray.In.Filter.Message.getX
               (MsgArray.In.Filter.Message.incr m))
  /\ (forall m,
        MsgArray.In.Filter.Message._parent m = f ->
        - MsgArray.In.Filter.radius f
          <= MsgArray.In.Filter.Message.relative_cell m
          <= MsgArray.In.Filter.radius f + 1 ->
        MsgArray.In.Filter.Message.getX m
        = (MsgArray.In.Filter.loc f
           + MsgArray.In.Filter.Message.relative_cell m
           + MsgArray.In.Filter.length f) mod MsgArray.In.Filter.length f)
  /\ (2 * MsgArray.In.Filter.radius f + 1 < MsgArray.In.Filter.length f ->
      MsgArray.In.Filter.traverse
        (Z.to_nat (2 * MsgArray.In.Filter.radius f + 2)) f
      = Some ((fun j => (MsgArray.In.Filter.loc f + j
                         + MsgArray.In.Filter.length f)
                        mod MsgArray.In.Filter.length f)
                <$> Window.window (MsgArray.In.Filter.radius f))).
Proof.
  intros Hf. pose proof Hf as [HL Hloc Hr Hsum Hint].
  split; [reflexivity|]. split; [reflexivity|].
  split; [rewrite (FilterFacts.begin_message f Hf); reflexivity|].
  split; [rewrite (FilterFacts.end_message f Hf); reflexivity|].
  split; [|split].
  - intros m Hparent Hm.
    assert (Hincr : MsgArray.In.Filter.Message.incr m
                    = Window.message_at f
                        (Window.next_relative
                           (MsgArray.In.Filter.Message.relative_cell m))).
    { rewrite <- (FilterFacts.incr_message_at f Hf) by exact Hm.
      unfold MsgArray.In.Filter.Message.incr, Window.message_at.
      cbn [MsgArray.In.Filter.Message._parent
           MsgArray.In.Filter.Message.relative_cell].
      rewrite Hparent. reflexivity. }
    rewrite Hincr. split; reflexivity.
  - intros m Hparent Hm. unfold MsgArray.In.Filter.Message.getX.
    rewrite Hparent. apply (FilterFacts.wrap_exact f Hf). exact Hm.
  - intros Hfit. apply (FilterFacts.traverse_window f Hf); lia.
Qed.

Lemma sound_fixture : Window.sound (MsgArray.In.Filter.construct 10 7 5 2).
Proof. split; cbn; lia. Defined.

Lemma neighbourhood_iteration_witness :
  MsgArray.In.Filter.traverse 6 (MsgArray.In.Filter.construct 10 7 5 2)
  = Some ((fun j => (5 + j + 10) mod 10) <$> Window.window 2).
Proof.
  destruct (neighbourhood_iteration 7 (MsgArray.In.Filter.construct 10 7 5 2)
              sound_fixture) as (_ & _ & _ & _ & _ & _ & Hwhole).
  apply Hwhole. cbn. lia.
Defined.

(** With the checks compiled in, [operator()] reports exactly the radii 0
    and those beyond the list length, and returns the filter in either
    case. *)
Lemma call_reports_exactly_invalid_radius `{Build} (thread : Thread)
    (this : MsgArray.In.t) (x radius : Z) (d : Device) :
  NO_SEATBELTS = false ->
  exists d',
    MsgArray.In.call thread this x radius d
    = Some (MsgArray.In.Filter.construct (MsgArray.In.length this)
              (MsgArray.In.combined_hash this) x radius, d')
    /\ (error_count (error_buffer d') <> error_count (error_buffer d)
        <-> radius = 0 \/ MsgArray.In.length this < radius)
    /\ (~ (radius = 0 \/ MsgArray.In.length this < radius) -> d' = d).
Proof.
  intros Hchecked. unfold MsgArray.In.call. rewrite Hchecked.
  unfold mbind, dev_bind.
  destruct (Z.eqb_spec radius 0) as [Hzero|Hpos]; cbn [orb].
  - rewrite DTHROW_checked by exact Hchecked. eexists. split; [reflexivity|].
    split; [|intros Hno; exfalso; auto].
    split; [auto|]. intros _. apply DTHROW_reports.
  - destruct (Z.ltb_spec (MsgArray.In.length this) radius) as [Hbig|Hfit].
    + rewrite DTHROW_checked by exact Hchecked. eexists.
      split; [reflexivity|]. split; [|intros Hno; exfalso; auto].
      split; [auto|]. intros _. apply DTHROW_reports.
    + exists d. split; [reflexivity|]. split; [|reflexivity].
      split; [congruence | lia].
Qed.

(** C9, evaluated on the code.  On a list of length 5 the call with origin
    2 and radius 2 is accepted without a report, and the window it should
    cover has the 4 cells 0, 1, 3, 4.  The filter it returns visits none:
    [end()] stands at offset 3, whose bin (2 + 3 + 5) mod 5 = 0 is the bin
    of [begin()], and the iterators compare equal on the bin.  On a list
    of length 4 the same call visits one cell. *)
Theorem accepted_radius_visits_no_cell :
  @MsgArray.In.call Fixture.build Fixture.thread (MsgArray.In.Make 7 5) 2 2
    Fixture.device
  = Some (MsgArray.In.Filter.construct 5 7 2 2, Fixture.device)
  /\ (fun j => (2 + j + 5) mod 5) <$> Window.window 2 = [0; 1; 3; 4]
  /\ (forall fuel,
        MsgArray.In.Filter.traverse (S fuel)
          (MsgArray.In.Filter.construct 5 7 2 2) = Some [])
  /\ MsgArray.In.Filter.traverse 5 (MsgArray.In.Filter.construct 4 7 2 2)
     = Some [0].
Proof.
  split; [reflexivity|]. split; [reflexivity|]. split; [|reflexivity].
  intros fuel. reflexivity.
Qed.

(** * Further properties of the sources *)

(** ** Strings and copies of the error reporter *)

(** X1.  [strlen] answers one more than the position of the first
    terminator; without a terminator among the first [FORMAT_BUFF_LEN]
    bytes it answers [FORMAT_BUFF_LEN + 1], one more than the bound of its
    loop. *)
Theorem strlen_stops_at_terminator_or_bound (c : cstring) (n : nat) :
  (n <= FORMAT_BUFF_LEN)%nat ->
  (forall i, (i < n)%nat -> is_nul (c_read c i) = false) ->
  ((n < FORMAT_BUFF_LEN)%nat -> is_nul (c_read c n) = true) ->
  DeviceException.strlen c = (n + 1)%nat.
Proof.
  intros Hn Hno Hnul. unfold DeviceException.strlen. f_equal.
  destruct (decide (n < FORMAT_BUFF_LEN)%nat) as [Hlt|Hge].
  - apply strlen_loop_stops; [lia | exact Hlt | | exact (Hnul Hlt)].
    intros i Hi. apply Hno. lia.
  - assert (n = FORMAT_BUFF_LEN) as -> by lia.
    pose proof (strlen_loop_bounds c FORMAT_BUFF_LEN 0%nat) as Hup.
    assert (Hlow : (FORMAT_BUFF_LEN
                    <= DeviceException.strlen_loop c 0 FORMAT_BUFF_LEN
                    \/ FORMAT_BUFF_LEN <= 0)%nat).
    { apply strlen_loop_lower; [lia | lia |].
      intros i Hi. apply Hno. lia. }
    set (r := DeviceException.strlen_loop c 0 FORMAT_BUFF_LEN) in *.
    clearbody r. unfold FORMAT_BUFF_LEN in *. lia.
Qed.

Lemma strlen_stops_at_terminator_or_bound_witness :
  DeviceException.strlen (literal "model.cu") = 9%nat.
Proof.
  apply (strlen_stops_at_terminator_or_bound (literal "model.cu") 8).
  - unfold FORMAT_BUFF_LEN. lia.
  - intros i Hi.
    do 8 (destruct i as [|i]; [reflexivity|]). lia.
  - intros _. reflexivity.
Defined.

Lemma bytes_at_lookup src n i :
  (i < n)%nat -> bytes_at src n !! i = Some (c_read src i).
Proof.
  intros Hi. unfold bytes_at. rewrite list_lookup_fmap.
  rewrite lookup_seq_lt by exact Hi. reflexivity.
Qed.

(** The bytes at a string, up to and with its terminator. *)
Lemma bytes_at_terminated (c : cstring) :
  bytes_at c (length c + 1) = c ++ [x00].
Proof.
  apply list_eq. intros i.
  destruct (decide (i < length c + 1)%nat) as [Hi|Hi].
  - rewrite bytes_at_lookup by exact Hi. unfold c_read.
    destruct (decide (i < length c)%nat) as [Hc|Hc].
    + rewrite lookup_app_l by exact Hc.
      destruct (lookup_lt_is_Some_2 c i Hc) as [b Hb].
      rewrite Hb. f_equal. apply nth_lookup_Some with (d := x00) in Hb.
      exact Hb.
    + assert (i = length c) as -> by lia.
      rewrite nth_overflow by lia.
      rewrite lookup_app_r by lia. rewrite Nat.sub_diag. reflexivity.
  - rewrite !lookup_ge_None_2; [reflexivity | |].
    + rewrite length_app. simpl. lia.
    + rewrite bytes_at_length. lia.
Qed.

Lemma bytes_at_prefix (c : cstring) n :
  (n <= length c)%nat -> bytes_at c n = take n c.
Proof.
  intros Hn. apply list_eq. intros i.
  destruct (decide (i < n)%nat) as [Hi|Hi].
  - rewrite bytes_at_lookup by exact Hi. rewrite lookup_take_lt by exact Hi.
    destruct (lookup_lt_is_Some_2 c i ltac:(lia)) as [b Hb].
    rewrite Hb. f_equal. unfold c_read.
    apply nth_lookup_Some with (d := x00) in Hb. exact Hb.
  - rewrite !lookup_ge_None_2; [reflexivity | |].
    + rewrite length_take. lia.
    + rewrite bytes_at_length. lia.
Qed.

(** [subformat] touches the argument fields only. *)
Lemma subformat_arg_frame b a :
  error_count (DeviceException.subformat_arg b a) = error_count b
  /\ file_path (DeviceException.subformat_arg b a) = file_path b
  /\ line_no (DeviceException.subformat_arg b a) = line_no b
  /\ block_id (DeviceException.subformat_arg b a) = block_id b
  /\ thread_id (DeviceException.subformat_arg b a) = thread_id b
  /\ format_string (DeviceException.subformat_arg b a) = format_string b.
Proof.
  destruct a as [T HT v|s]; cbn [DeviceException.subformat_arg];
    unfold DeviceException.subformat, DeviceException.subformat_cstr.
  - destruct (arg_count b <? MAX_ARGS)%nat; [|repeat split].
    destruct (arg_offset b + sizeof T <=? ARG_BUFF_LEN)%nat; repeat split.
  - destruct (arg_count b <? MAX_ARGS)%nat; [|repeat split].
    destruct (DeviceException.uint_add (arg_offset b)
                (DeviceException.strlen s) <=? ARG_BUFF_LEN)%nat;
      repeat split.
Qed.

Lemma subformat_recurse_frame args : forall b,
  error_count (DeviceException.subformat_recurse b args) = error_count b
  /\ file_path (DeviceException.subformat_recurse b args) = file_path b
  /\ line_no (DeviceException.subformat_recurse b args) = line_no b
  /\ block_id (DeviceException.subformat_recurse b args) = block_id b
  /\ thread_id (DeviceException.subformat_recurse b args) = thread_id b
  /\ format_string (DeviceException.subformat_recurse b args)
     = format_string b.
Proof.
  induction args as [|a args IH]; intros b;
    cbn [DeviceException.subformat_recurse]; [repeat split|].
  destruct (IH (DeviceException.subformat_arg b a))
    as (-> & -> & -> & -> & -> & ->).
  apply subformat_arg_frame.
Qed.

(** What the owner of the claim leaves in the location fields. *)
Lemma report_location (f : Launch.failure) :
  line_no (Launch.report f) = Launch.line f
  /\ block_id (Launch.report f) = Launch.block f
  /\ thread_id (Launch.report f) = Launch.thread f.
Proof.
  unfold Launch.report, DeviceException.setMessage.
  cbn [DeviceException.hasError].
  destruct (negb _).
  - unfold DeviceException.construct_body. buffer_fields. repeat split.
  - cbv zeta.
    match goal with
    | |- context [DeviceException.subformat_recurse ?b0 _] =>
        destruct (subformat_recurse_frame (Launch.args f) b0)
          as (_ & _ & -> & -> & -> & _)
    end.
    unfold DeviceException.construct_body. buffer_fields. repeat split.
Qed.

(** A string that has no terminator before position [n] is at least [n]
    bytes long. *)
Lemma no_nul_length (c : cstring) n :
  (forall i, (i < n)%nat -> is_nul (c_read c i) = false) -> (n <= length c)%nat.
Proof.
  intros Hno. destruct (Nat.le_gt_cases n (length c)) as [Hle|Hgt]; [exact Hle|].
  specialize (Hno (length c) Hgt). unfold c_read in Hno.
  rewrite nth_overflow in Hno by lia. discriminate Hno.
Qed.

(** X2.  The first thread to fail (it finds the counter at 0) gets
    [hasError] and leaves in the buffer the counter 1, its source path
    with the terminator at the start of [file_path], the line and its block
    and thread coordinates; the message fields are not touched by the
    constructor.  The path must be shorter than the field. *)
Theorem first_failure_records_location (file : cstring) (line : Z)
    (bid tid : uint3) (b : DeviceExceptionBuffer) :
  error_count b = 0 ->
  (length file < FILE_BUFF_LEN)%nat ->
  (forall i, (i < length file)%nat -> is_nul (c_read file i) = false) ->
  length (file_path b) = FILE_BUFF_LEN ->
  exists b',
    DeviceException.construct file line bid tid b
    = (DeviceException.Exception true, b')
    /\ error_count b' = 1
    /\ file_path b' = file ++ [x00] ++ drop (length file + 1) (file_path b)
    /\ length (file_path b') = FILE_BUFF_LEN
    /\ line_no b' = line /\ block_id b' = bid /\ thread_id b' = tid
    /\ format_string b' = format_string b
    /\ format_args_sizes b' = format_args_sizes b
    /\ format_args b' = format_args b
    /\ arg_count b' = arg_count b /\ arg_offset b' = arg_offset b.
Proof.
  intros Hzero Hshort Hno Hcap.
  unfold DeviceException.construct, DeviceException.getErrorCount, atomicInc.
  rewrite Hzero. cbn [Z.leb Z.compare UINT_MAX Z.eqb].
  eexists. split; [reflexivity|].
  unfold DeviceException.construct_body, set_error_count.
  cbn [error_count file_path line_no block_id thread_id format_string
       format_args_sizes format_args arg_count arg_offset].
  assert (Hlen : DeviceException.strlen file = (length file + 1)%nat).
  { apply strlen_exact; [unfold FILE_BUFF_LEN, FORMAT_BUFF_LEN in *; lia|].
    exact Hno. }
  rewrite Hlen. unfold memcpy. rewrite take_0, bytes_at_terminated.
  cbn [app Nat.add]. rewrite <- app_assoc.
  repeat split.
  rewrite !length_app, length_drop, Hcap. cbn [length]. lia.
Qed.

Lemma first_failure_records_location_witness :
  exists b',
    DeviceException.construct (literal "model.cu") 12 (Uint3 0 0 0)
      (Uint3 3 0 0) clean
    = (DeviceException.Exception true, b')
    /\ take 9 (file_path b') = literal "model.cu" ++ [x00]
    /\ line_no b' = 12.
Proof.
  destruct (first_failure_records_location (literal "model.cu") 12
              (Uint3 0 0 0) (Uint3 3 0 0) clean)
    as (b' & Hb' & _ & Hpath & _ & Hline & _).
  - reflexivity.
  - unfold FILE_BUFF_LEN. cbn. lia.
  - intros i Hi. cbn in Hi.
    do 8 (destruct i as [|i]; [reflexivity|]). lia.
  - unfold clean. cbn [file_path]. apply repeat_length.
  - exists b'. split; [exact Hb'|]. split; [|exact Hline].
    rewrite Hpath. reflexivity.
Defined.

Lemma format_eos_at c fuel : forall eos n,
  (eos <= n <= eos + fuel)%nat ->
  (forall i, (eos <= i < n)%nat -> is_nul (c_read c i) = false) ->
  ((n < eos + fuel)%nat -> is_nul (c_read c n) = true) ->
  DeviceException.format_eos c eos fuel = n.
Proof.
  induction fuel as [|fuel IH]; intros eos n Hn Hno Hnul;
    cbn [DeviceException.format_eos]; [lia|].
  destruct (decide (eos = n)) as [->|Hne].
  - rewrite Hnul by lia. reflexivity.
  - rewrite Hno by lia. apply IH; [lia | | ].
    + intros i Hi. apply Hno. lia.
    + intros Hlt. apply Hnul. lia.
Qed.

(** X3.  When the format field is still empty, the owner's [setMessage]
    stores the format string up to its terminator, or its first
    [FORMAT_BUFF_LEN] bytes when it is longer, at the start of
    [format_string] and leaves the rest of the field: the terminator itself
    is not copied, so a format of [FORMAT_BUFF_LEN] bytes or more fills the
    field and leaves none.  The file path, the line number, the block and
    thread coordinates and the counter stay as they were. *)
Theorem owner_records_format (e : DeviceException.t) (format : cstring)
    (args : list format_arg) (b : DeviceExceptionBuffer) (n : nat) :
  DeviceException.hasError e = true ->
  is_nul (c_read (format_string b) 0) = true ->
  length (format_string b) = FORMAT_BUFF_LEN ->
  (n <= FORMAT_BUFF_LEN)%nat ->
  (forall i, (i < n)%nat -> is_nul (c_read format i) = false) ->
  ((n < FORMAT_BUFF_LEN)%nat -> is_nul (c_read format n) = true) ->
  format_string (DeviceException.setMessage e format args b)
  = take n format ++ drop n (format_string b)
  /\ length (format_string (DeviceException.setMessage e format args b))
     = FORMAT_BUFF_LEN
  /\ file_path (DeviceException.setMessage e format args b) = file_path b
  /\ line_no (DeviceException.setMessage e format args b) = line_no b
  /\ block_id (DeviceException.setMessage e format args b) = block_id b
  /\ thread_id (DeviceException.setMessage e format args b) = thread_id b
  /\ error_count (DeviceException.setMessage e format args b) = error_count b.
Proof.
  intros He Hempty Hcap Hn Hno Hnul.
  unfold DeviceException.setMessage. rewrite He, Hempty. cbn [negb].
  cbv zeta.
  rewrite (format_eos_at format FORMAT_BUFF_LEN 0%nat n);
    [| lia | intros i Hi; apply Hno; lia | intros Hlt; apply Hnul; lia].
  match goal with
  | |- context [DeviceException.subformat_recurse ?b0 args] =>
      destruct (subformat_recurse_frame args b0)
        as (Hcount & Hfile & Hline & Hblock & Hthread & Hfmt)
  end.
  rewrite Hfmt, Hfile, Hline, Hblock, Hthread, Hcount.
  cbn [error_count file_path line_no block_id thread_id format_string].
  unfold memcpy. rewrite take_0. cbn [app Nat.add].
  rewrite bytes_at_prefix by (apply no_nul_length; exact Hno).
  repeat split.
  rewrite length_app, length_take, length_drop, Hcap.
  pose proof (no_nul_length format n Hno). lia.
Qed.

Lemma owner_records_format_witness :
  take 8 (format_string
            (DeviceException.setMessage (DeviceException.Exception true)
               (literal "bad %u") [Scalar Z 5] clean))
  = literal "bad %u" ++ [x00; x00].
Proof.
  destruct (owner_records_format (DeviceException.Exception true)
              (literal "bad %u") [Scalar Z 5] clean 6) as [Hfmt _].
  - reflexivity.
  - reflexivity.
  - unfold clean. cbn [format_string]. apply repeat_length.
  - unfold FORMAT_BUFF_LEN. lia.
  - intros i Hi. do 6 (destruct i as [|i]; [reflexivity|]). lia.
  - intros _. reflexivity.
  - rewrite Hfmt. reflexivity.
Defined.

Lemma format_eos_past c eos fuel :
  is_nul (c_read c eos) = false -> (1 <= fuel)%nat ->
  exists k, DeviceException.format_eos c eos fuel = S k.
Proof.
  intros Hfirst Hfuel. destruct fuel as [|fuel]; [lia|].
  cbn [DeviceException.format_eos]. rewrite Hfirst.
  pose proof (format_eos_bounds c fuel (S eos)) as Hb.
  destruct (DeviceException.format_eos c (S eos) fuel) as [|k]; [lia|eauto].
Qed.

(** X4.  [setMessage] writes once: after a message whose format is not
    empty, a further [setMessage] on the same exception object changes
    nothing, whatever it is given. *)
Theorem setMessage_writes_once (e : DeviceException.t)
    (format format' : cstring) (args args' : list format_arg)
    (b : DeviceExceptionBuffer) :
  is_nul (c_read format 0) = false ->
  is_nul (c_read (format_string b) 0) = true ->
  DeviceException.setMessage e format' args'
    (DeviceException.setMessage e format args b)
  = DeviceException.setMessage e format args b.
Proof.
  intros Hfirst Hempty.
  unfold DeviceException.setMessage at 1.
  destruct (DeviceException.hasError e) eqn:He; [|reflexivity].
  assert (Hset : is_nul (c_read (format_string
            (DeviceException.setMessage e format args b)) 0) = false).
  { unfold DeviceException.setMessage. rewrite He, Hempty. cbn [negb].
    cbv zeta.
    match goal with
    | |- context [DeviceException.subformat_recurse ?b0 args] =>
        destruct (subformat_recurse_frame args b0)
          as (_ & _ & _ & _ & _ & Hfmt)
    end.
    rewrite Hfmt. cbn [format_string].
    unfold memcpy. rewrite take_0. cbn [app].
    destruct (format_eos_past format 0 FORMAT_BUFF_LEN Hfirst) as [k ->].
    { unfold FORMAT_BUFF_LEN. lia. }
    unfold bytes_at, c_read. cbn [seq map app nth]. exact Hfirst. }
  rewrite Hset. reflexivity.
Qed.

Lemma setMessage_writes_once_witness :
  DeviceException.setMessage (DeviceException.Exception true)
    (literal "again") [Scalar Z 7]
    (DeviceException.setMessage (DeviceException.Exception true)
       (literal "bad %u") [Scalar Z 5] clean)
  = DeviceException.setMessage (DeviceException.Exception true)
      (literal "bad %u") [Scalar Z 5] clean.
Proof.
  apply (setMessage_writes_once (DeviceException.Exception true)
           (literal "bad %u") (literal "again") [Scalar Z 5] [Scalar Z 7]
           clean); reflexivity.
Defined.

(** ** Arguments of the message *)

Lemma take_memcpy dst off src n :
  (off <= length dst)%nat ->
  take (off + n) (memcpy dst off src n) = take off dst ++ bytes_at src n.
Proof.
  intros Hoff. unfold memcpy. rewrite app_assoc.
  apply take_app_length'. rewrite length_app, length_take, bytes_at_length.
  lia.
Qed.

Lemma arg_stored b a :
  (arg_count b < MAX_ARGS)%nat ->
  (arg_offset b + Packing.arg_size a <= ARG_BUFF_LEN)%nat ->
  DeviceException.subformat_arg b a
  = DeviceException.store_arg b (Packing.arg_size a)
      (match a with Scalar T v => encode v | CStr s => s end).
Proof.
  intros Hcount Hfit.
  destruct a as [T HT v|s];
    cbn [DeviceException.subformat_arg Packing.arg_size] in *;
    unfold DeviceException.subformat, DeviceException.subformat_cstr.
  - destruct (Nat.ltb_spec (arg_count b) MAX_ARGS); [|lia].
    destruct (Nat.leb_spec (arg_offset b + sizeof T) ARG_BUFF_LEN); [|lia].
    reflexivity.
  - destruct (Nat.ltb_spec (arg_count b) MAX_ARGS); [|lia].
    rewrite (uint_add_fits _ _ Hfit).
    destruct (Nat.leb_spec (arg_offset b + DeviceException.strlen s)
                ARG_BUFF_LEN); [|lia].
    reflexivity.
Qed.

Lemma arg_bytes_read a :
  bytes_at (match a with Scalar T v => encode v | CStr s => s end)
    (Packing.arg_size a)
  = Packing.arg_bytes a.
Proof. destruct a; reflexivity. Qed.

(** Arguments that fit are appended in order, behind what is stored. *)
Lemma subformat_recurse_packs args : forall b,
  within_capacity b ->
  (arg_count b + length args <= MAX_ARGS)%nat ->
  (arg_offset b + Packing.total_size args <= ARG_BUFF_LEN)%nat ->
  let b' := DeviceException.subformat_recurse b args in
  arg_count b' = (arg_count b + length args)%nat
  /\ arg_offset b' = (arg_offset b + Packing.total_size args)%nat
  /\ take (arg_count b') (format_args_sizes b')
     = take (arg_count b) (format_args_sizes b) ++ (Packing.arg_size <$> args)
  /\ take (arg_offset b') (format_args b')
     = take (arg_offset b) (format_args b)
       ++ mjoin (Packing.arg_bytes <$> args)
  /\ within_capacity b'.
Proof.
  induction args as [|a args IH]; intros b Hcap Hcount Hfit;
    cbn [DeviceException.subformat_recurse].
  - cbv zeta. cbn [Packing.total_size fmap list_fmap length mjoin list_join].
    rewrite !Nat.add_0_r, !app_nil_r. auto.
  - cbv zeta. rewrite fmap_cons.
    cbn [Packing.total_size length] in Hfit, Hcount |- *.
    rewrite arg_stored by lia.
    set (src := match a with Scalar T v => encode v | CStr s => s end).
    destruct (store_arg_within b (Packing.arg_size a) src Hcap)
      as (Hcap1 & _ & Hsize); [split; lia | lia | lia |].
    pose proof Hcap as (_ & _ & Hsizes & Hargs).
    set (b1 := DeviceException.store_arg b (Packing.arg_size a) src) in *.
    assert (Hc1 : arg_count b1 = S (arg_count b)) by reflexivity.
    assert (Ho1 : arg_offset b1 = (arg_offset b + Packing.arg_size a)%nat)
      by (unfold b1, DeviceException.store_arg; buffer_fields;
          apply uint_add_fits; lia).
    assert (Hs1 : format_args_sizes b1
                  = <[arg_count b := Packing.arg_size a]> (format_args_sizes b))
      by reflexivity.
    assert (Hb1 : format_args b1
                  = memcpy (format_args b) (arg_offset b) src
                      (Packing.arg_size a)) by reflexivity.
    destruct (IH b1 Hcap1) as (Hc & Ho & Hs & Hb & Hw);
      [rewrite Hc1; lia | rewrite Ho1; lia |].
    clearbody b1.
    rewrite Hc1 in Hc, Hs. rewrite Ho1 in Ho, Hb. rewrite Hs1 in Hs.
    rewrite Hb1 in Hb.
    split; [lia|]. split; [lia|]. split; [|split; [|exact Hw]].
    + rewrite Hs. rewrite (take_S_r _ _ (Packing.arg_size a)).
      * rewrite take_insert_ge by lia. rewrite <- app_assoc. reflexivity.
      * apply list_lookup_insert_eq. lia.
    + rewrite Hb. rewrite take_memcpy by lia. subst src.
      rewrite arg_bytes_read.
      cbn [mjoin list_join]. rewrite <- app_assoc. reflexivity.
Qed.

(** X5.  On a buffer whose format field is still empty (its first byte is
    the terminator), whose fields have their capacity and which holds no
    stored arguments, the owner's [setMessage] with at most [MAX_ARGS]
    arguments of at most [ARG_BUFF_LEN] bytes in all stores every argument:
    [arg_count] is their number, [arg_offset]
    their total size, [format_args_sizes] starts with their sizes and
    [format_args] with their bytes, back to back and in the order
    given. *)
Theorem arguments_are_packed_in_order (e : DeviceException.t)
    (format : cstring) (args : list format_arg) (b : DeviceExceptionBuffer) :
  DeviceException.hasError e = true ->
  is_nul (c_read (format_string b) 0) = true ->
  within_capacity b ->
  arg_count b = 0%nat -> arg_offset b = 0%nat ->
  (length args <= MAX_ARGS)%nat ->
  (Packing.total_size args <= ARG_BUFF_LEN)%nat ->
  let b' := DeviceException.setMessage e format args b in
  arg_count b' = length args
  /\ arg_offset b' = Packing.total_size args
  /\ take (length args) (format_args_sizes b') = Packing.arg_size <$> args
  /\ take (Packing.total_size args) (format_args b')
     = mjoin (Packing.arg_bytes <$> args).
Proof.
  intros He Hempty Hcap Hcount Hoff Hlen Htotal.
  unfold DeviceException.setMessage. rewrite He, Hempty. cbn [negb].
  cbv zeta.
  match goal with
  | |- context [DeviceException.subformat_recurse ?b0 args] => set (b0' := b0)
  end.
  assert (Hcap0 : within_capacity b0').
  { destruct Hcap as (Hfile & Hfmt & Hsizes & Hargs).
    unfold within_capacity, b0'.
    cbn [file_path format_string format_args_sizes format_args].
    pose proof (format_eos_bounds format FORMAT_BUFF_LEN 0%nat).
    rewrite memcpy_length by (rewrite Hfmt; lia). auto. }
  assert (Hc0 : arg_count b0' = 0%nat) by exact Hcount.
  assert (Ho0 : arg_offset b0' = 0%nat) by exact Hoff.
  destruct (subformat_recurse_packs args b0' Hcap0)
    as (Hc & Ho & Hs & Hb & _); [rewrite Hc0; lia | rewrite Ho0; lia |].
  clearbody b0'. rewrite Hc0 in Hc, Hs. rewrite Ho0 in Ho, Hb.
  cbn [Nat.add] in Hc, Ho. rewrite Hc in Hs. rewrite Ho in Hb.
  rewrite take_0 in Hs. rewrite take_0 in Hb. cbn [app] in Hs, Hb. auto.
Qed.

Lemma arguments_are_packed_in_order_witness :
  take 5 (format_args
            (DeviceException.setMessage (DeviceException.Exception true)
               (literal "%u %c") [Scalar Z 258; Scalar byte x2a] clean))
  = [x02; x01; x00; x00; x2a].
Proof.
  destruct (arguments_are_packed_in_order (DeviceException.Exception true)
              (literal "%u %c") [Scalar Z 258; Scalar byte x2a] clean)
    as (_ & _ & _ & Hbytes).
  - reflexivity.
  - reflexivity.
  - unfold within_capacity, clean.
    cbn [file_path format_string format_args_sizes format_args].
    rewrite !repeat_length. auto.
  - reflexivity.
  - reflexivity.
  - unfold MAX_ARGS. cbn. lia.
  - unfold ARG_BUFF_LEN. cbn. lia.
  - exact Hbytes.
Defined.

(** X6.  A string argument without a terminator among its first
    [ARG_BUFF_LEN] bytes is not stored: [strlen] answers
    [FORMAT_BUFF_LEN + 1], more than the whole argument buffer, and
    [subformat] drops the argument without a trace.  The guard adds two
    [unsigned int]; the statement is for an [arg_offset] that this sum does
    not take past 2^32, as every offset inside the argument buffer is. *)
Theorem long_string_argument_is_dropped (b : DeviceExceptionBuffer)
    (s : cstring) :
  Z.of_nat (arg_offset b) + Z.of_nat (FORMAT_BUFF_LEN + 1) < 2 ^ 32 ->
  (forall i, (i < ARG_BUFF_LEN)%nat -> is_nul (c_read s i) = false) ->
  DeviceException.subformat_cstr b s = b.
Proof.
  intros Hoff Hno. unfold DeviceException.subformat_cstr.
  destruct (arg_count b <? MAX_ARGS)%nat; [|reflexivity].
  rewrite (strlen_stops_at_terminator_or_bound s FORMAT_BUFF_LEN);
    [| lia | exact Hno | lia].
  rewrite (uint_add_small _ _ Hoff).
  destruct (Nat.leb_spec (arg_offset b + (FORMAT_BUFF_LEN + 1)) ARG_BUFF_LEN)
    as [Hfit|_]; [|reflexivity].
  unfold FORMAT_BUFF_LEN, ARG_BUFF_LEN in Hfit. lia.
Qed.

Lemma long_string_argument_is_dropped_witness :
  DeviceException.subformat_cstr clean (repeat x61 4096) = clean.
Proof.
  apply (long_string_argument_is_dropped clean (repeat x61 4096)).
  - vm_compute. reflexivity.
  - intros i Hi. unfold c_read.
    rewrite nth_repeat_lt by exact Hi. reflexivity.
Defined.

(** ** The error counter *)

Lemma atomicInc_modulo c :
  0 <= c < 2 ^ 32 -> snd (atomicInc c UINT_MAX) = (c + 1) mod 2 ^ 32.
Proof.
  intros Hc. unfold atomicInc, UINT_MAX. cbn [snd].
  destruct (Z.leb_spec (2 ^ 32 - 1) c) as [Hmax|Hlt].
  - assert (c = 2 ^ 32 - 1) as -> by lia. reflexivity.
  - rewrite Z.mod_small by lia. reflexivity.
Qed.

(** X7.  Failures reported one after the other count modulo 2^32: the
    counter is an [unsigned int] that [atomicInc] takes from [UINT_MAX]
    back to 0. *)
Theorem reports_count_modulo (fs : list Launch.failure)
    (b : DeviceExceptionBuffer) :
  0 <= error_count b < 2 ^ 32 ->
  error_count (report_each fs b)
  = (error_count b + Z.of_nat (length fs)) mod 2 ^ 32.
Proof.
  revert b. induction fs as [|f fs IH]; intros b Hb.
  - cbn [report_each foldl length Z.of_nat]. rewrite Z.add_0_r.
    rewrite Z.mod_small by exact Hb. reflexivity.
  - change (report_each (f :: fs) b)
      with (report_each fs
              (DeviceException.DTHROW (Launch.file f) (Launch.line f)
                 (Launch.block f) (Launch.thread f) (Launch.format f)
                 (Launch.args f) b)).
    rewrite IH.
    + rewrite DTHROW_error_count, atomicInc_modulo by exact Hb.
      rewrite Zplus_mod_idemp_l. f_equal. cbn [length]. lia.
    + rewrite DTHROW_error_count, atomicInc_modulo by exact Hb.
      apply Z.mod_pos_bound. lia.
Qed.

Lemma reports_count_modulo_witness :
  error_count
    (report_each Fixture.failures (set_error_count UINT_MAX clean)) = 1.
Proof.
  rewrite (reports_count_modulo Fixture.failures
             (set_error_count UINT_MAX clean)).
  - reflexivity.
  - cbn [error_count set_error_count]. unfold UINT_MAX. lia.
Defined.

(** ** The owner of the report *)

(** X8.  The report a launch leaves is the one of the thread whose
    increment came first: whatever the schedule does after the first step
    of thread [i], once all threads have returned the buffer holds the
    count of the failures and the detail of [i]'s failure alone. *)
Theorem first_increment_owns_report (fs : list Launch.failure) (i : nat)
    (f : Launch.failure) (rest : list nat) :
  fs !! i = Some f ->
  Z.of_nat (length fs) <= UINT_MAX ->
  Launch.finished (Launch.run fs (i :: rest) (Launch.start fs)) = true ->
  Launch.buffer (Launch.run fs (i :: rest) (Launch.start fs))
  = set_error_count (Z.of_nat (length fs)) (Launch.report f).
Proof.
  intros Hf Hmax Hfin.
  set (final := Launch.run fs (i :: rest) (Launch.start fs)) in *.
  pose proof (LaunchFacts.invariant_run fs (i :: rest) _ Hmax
                (LaunchFacts.invariant_start fs)) as [Hlen Hcount Hown].
  fold final in Hlen, Hcount, Hown.
  unfold Launch.finished in Hfin.
  pose proof (LaunchFacts.claimed_finished _ Hfin) as Hall.
  rewrite Hall, Hlen in Hcount.
  assert (Hi : (i < length fs)%nat) by (eapply lookup_lt_Some; eauto).
  (* thread i after its increment *)
  assert (Hfirst : Launch.stages (Launch.step fs i (Launch.start fs)) !! i
                   = Some (Launch.Entered (DeviceException.Exception true))).
  { unfold Launch.step, Launch.start. cbn [Launch.stages Launch.buffer].
    rewrite Hf, lookup_replicate_2 by exact Hi.
    unfold DeviceException.getErrorCount, atomicInc, clean.
    cbn [error_count Launch.stages].
    apply list_lookup_insert_eq. rewrite length_replicate. exact Hi. }
  destruct (LaunchFacts.run_keeps_owner fs rest i _ _ Hfirst eq_refl)
    as (s' & Hs' & Hsame).
  change (Launch.run fs rest (Launch.step fs i (Launch.start fs)))
    with final in Hs'.
  cbn [Ownership.stage_owner DeviceException.hasError] in Hsame.
  destruct Hown as [[Hzero _]|[o (fo & so & Hfo & Hso & Howner & Hothers & Hdetail)]];
    [lia|].
  destruct (decide (i = o)) as [<-|Hne].
  - rewrite Hf in Hfo. injection Hfo as <-.
    rewrite <- (LaunchFacts.set_error_count_detail (Launch.buffer final)).
    rewrite Hcount, Hdetail.
    pose proof (LaunchFacts.forallb_lookup _ _ _ Hfin Hso) as Hdone.
    destruct so; try discriminate. reflexivity.
  - rewrite (Hothers i s' Hne Hs') in Hsame. discriminate.
Qed.

Lemma first_increment_owns_report_witness :
  line_no
    (Launch.buffer
       (Launch.run Fixture.failures [1; 0; 0; 1; 0; 1]%nat
          (Launch.start Fixture.failures))) = 40.
Proof.
  rewrite (first_increment_owns_report Fixture.failures 1
             {| Launch.file := literal "model.cu"; Launch.line := 40;
                Launch.block := Uint3 0 0 0; Launch.thread := Uint3 1 0 0;
                Launch.format := literal "bad radius %u";
                Launch.args := [Scalar Z 0] |}
             [0; 0; 1; 0; 1]%nat).
  - reflexivity.
  - reflexivity.
  - vm_compute. discriminate.
  - vm_compute. reflexivity.
Defined.

(** ** Threads and their cells *)

(** X9.  In a one-dimensional launch whose threads fit 32 bits, the index
    the accessors compute is [blockIdx.x * blockDim.x + threadIdx.x]
    itself, the same as [getThreadIndex()], and two threads with the same
    index are the same thread of the same block: no two threads share a
    cell. *)
Theorem thread_index_is_injective (t1 t2 : Thread) :
  x3 (blockDim t1) = x3 (blockDim t2) ->
  0 <= x3 (threadIdx t1) < x3 (blockDim t1) ->
  0 <= x3 (threadIdx t2) < x3 (blockDim t2) ->
  0 <= x3 (blockIdx t1) -> 0 <= x3 (blockIdx t2) ->
  x3 (blockDim t1) * x3 (blockIdx t1) + x3 (threadIdx t1) < 2 ^ 32 ->
  x3 (blockDim t2) * x3 (blockIdx t2) + x3 (threadIdx t2) < 2 ^ 32 ->
  thread_index t1
  = x3 (blockIdx t1) * x3 (blockDim t1) + x3 (threadIdx t1)
  /\ getThreadIndex t1 = thread_index t1
  /\ (thread_index t1 = thread_index t2 ->
      x3 (blockIdx t1) = x3 (blockIdx t2)
      /\ x3 (threadIdx t1) = x3 (threadIdx t2)).
Proof.
  intros Hdim Ht1 Ht2 Hb1 Hb2 Hfit1 Hfit2.
  assert (Hexact : forall t,
    0 <= x3 (threadIdx t) < x3 (blockDim t) -> 0 <= x3 (blockIdx t) ->
    x3 (blockDim t) * x3 (blockIdx t) + x3 (threadIdx t) < 2 ^ 32 ->
    thread_index t = x3 (blockDim t) * x3 (blockIdx t) + x3 (threadIdx t)).
  { intros t Ht Hb Hfit. unfold thread_index.
    rewrite to_uint_add_l. apply to_uint_small. nia. }
  split; [rewrite Hexact by assumption; lia|]. split.
  - unfold getThreadIndex, thread_index.
    rewrite (Z.mul_comm (x3 (blockIdx t1))). reflexivity.
  - rewrite !Hexact by assumption. rewrite <- Hdim in *.
    intros Heq.
    assert (x3 (blockIdx t1) = x3 (blockIdx t2)) by nia.
    split; [assumption | nia].
Qed.

Lemma thread_index_is_injective_witness :
  thread_index (Fixture2.thread 2) = 2.
Proof.
  destruct (thread_index_is_injective (Fixture2.thread 2) (Fixture2.thread 1))
    as [Hindex _]; cbn; try lia.
  exact Hindex.
Defined.

(** A write changes one cell of one variable: every other read is as
    before. *)
Lemma read_after_write_elsewhere (T T' : Type) `{DeviceType T}
    `{DeviceType T'} N name hash (v : T) index array_index tbl tbl'
    N' name' hash' index' array_index' :
  Curve.write T N name hash v index array_index tbl = Some tbl' ->
  (hash, name) <> (hash', name')
  \/ Curve.cell N index array_index <> Curve.cell N' index' array_index' ->
  Curve.read T' N' name' hash' index' array_index' tbl'
  = Curve.read T' N' name' hash' index' array_index' tbl.
Proof.
  intros Hw Hother.
  destruct (decide ((hash, name) = (hash', name'))) as [Heq|Hne].
  - destruct Hother as [Hne|Hcell]; [contradiction|].
    unfold Curve.write in Hw.
    destruct (tbl !! (hash, name)) as [b|] eqn:Hb; [|discriminate].
    case_decide; [|discriminate]. injection Hw as <-.
    unfold Curve.read. rewrite <- Heq, lookup_insert_eq, Hb.
    cbn [Curve.type_size Curve.array_length Curve.buffer].
    case_decide; [|reflexivity].
    rewrite list_lookup_insert_ne by exact Hcell. reflexivity.
  - apply (CurveFacts.read_write_other T N name hash v index array_index tbl
             tbl' T' N' name' hash' index' array_index' Hw Hne).
Qed.

Lemma reserved_id : reserved "_id" = true.
Proof. reflexivity. Qed.

(** X10.  A [setVariable] of one thread leaves what any other thread reads
    with [getVariable], of this or of another variable, as it was: each
    thread writes the cell of its own index only. *)
Theorem setVariable_leaves_other_threads (writer reader : Thread)
    (T T' : Type) `{DeviceType T} `{DeviceType T'}
    (api : ReadOnlyDeviceAPI.t) (name name' : string) (v : T)
    (d d' : Device) :
  thread_index writer <> thread_index reader ->
  DeviceAPI.setVariable writer T api name v d = Some (tt, d') ->
  fst <$> ReadOnlyDeviceAPI.getVariable reader T' api name' d'
  = fst <$> ReadOnlyDeviceAPI.getVariable reader T' api name' d.
Proof.
  intros Hne Hset. unfold DeviceAPI.setVariable in Hset.
  destruct (reserved name).
  { injection Hset as <-. reflexivity. }
  unfold curve_write, Curve.setAgentVariable in Hset.
  destruct (Curve.write T 1 name (ReadOnlyDeviceAPI.agent_func_name_hash api) v
              (thread_index writer) 0 (curve d)) as [c|] eqn:Hw;
    [|discriminate].
  injection Hset as <-.
  unfold ReadOnlyDeviceAPI.getVariable, mbind, dev_bind, curve_read,
    Curve.getAgentVariable. cbn [curve set_curve].
  rewrite (read_after_write_elsewhere T T' _ _ _ _ _ _ _ _ _ _ _ _ _ Hw).
  - destruct (Curve.read T' 1 name' _ (thread_index reader) 0 (curve d));
      reflexivity.
  - right. unfold Curve.cell.
    pose proof (Z.mod_pos_bound (to_uint (x3 (blockDim writer)
                  * x3 (blockIdx writer)) + x3 (threadIdx writer)) (2 ^ 32)
                  ltac:(lia)) as Hw0.
    pose proof (Z.mod_pos_bound (to_uint (x3 (blockDim reader)
                  * x3 (blockIdx reader)) + x3 (threadIdx reader)) (2 ^ 32)
                  ltac:(lia)) as Hr0.
    fold (to_uint (to_uint (x3 (blockDim writer) * x3 (blockIdx writer))
                   + x3 (threadIdx writer))) in Hw0.
    fold (to_uint (to_uint (x3 (blockDim reader) * x3 (blockIdx reader))
                   + x3 (threadIdx reader))) in Hr0.
    fold (thread_index writer) in Hw0. fold (thread_index reader) in Hr0.
    lia.
Qed.

Lemma setVariable_leaves_other_threads_witness :
  match DeviceAPI.setVariable (Fixture2.thread 0) byte Fixture.api "x" x2a
          Fixture2.device with
  | Some (_, d') =>
      fst <$> ReadOnlyDeviceAPI.getVariable (Fixture2.thread 1) byte
                Fixture.api "x" d'
  | None => None
  end = Some x01.
Proof.
  destruct (DeviceAPI.setVariable (Fixture2.thread 0) byte Fixture.api "x" x2a
              Fixture2.device) as [[[] d']|] eqn:Hset.
  - rewrite (setVariable_leaves_other_threads (Fixture2.thread 0)
               (Fixture2.thread 1) byte byte Fixture.api "x" "x" x2a
               Fixture2.device d').
    + vm_compute. reflexivity.
    + vm_compute. discriminate.
    + exact Hset.
  - vm_compute in Hset. discriminate Hset.
Defined.

(** X11.  The agent's id is out of reach of [setVariable]: after a
    [setVariable] of the thread, in the scalar or the array form and with
    any name, [getID] answers what it answered before. *)
Theorem setVariable_keeps_id (thread : Thread) (T : Type) `{DeviceType T}
    (N : nat) (api : ReadOnlyDeviceAPI.t) (name : string) (array_index : Z)
    (v : T) (d d' : Device) :
  DeviceAPI.setVariable thread T api name v d = Some (tt, d')
  \/ DeviceAPI.setVariable_array thread T N api name array_index v d
     = Some (tt, d') ->
  fst <$> ReadOnlyDeviceAPI.getID thread api d'
  = fst <$> ReadOnlyDeviceAPI.getID thread api d.
Proof.
  assert (Hwrite : forall M j c,
    reserved name = false ->
    Curve.write T M name (ReadOnlyDeviceAPI.agent_func_name_hash api) v
      (thread_index thread) j (curve d) = Some c ->
    fst <$> ReadOnlyDeviceAPI.getID thread api (set_curve c d)
    = fst <$> ReadOnlyDeviceAPI.getID thread api d).
  { intros M j c Hname Hw.
    unfold ReadOnlyDeviceAPI.getID, ReadOnlyDeviceAPI.getVariable, mbind,
      dev_bind, curve_read, Curve.getAgentVariable. cbn [curve set_curve].
    rewrite (read_after_write_elsewhere T Z _ _ _ _ _ _ _ _ _ _ _ _ _ Hw).
    - destruct (Curve.read Z 1 "_id" _ (thread_index thread) 0 (curve d));
        reflexivity.
    - left. intros [= ->]. rewrite reserved_id in Hname. discriminate Hname. }
  intros [Hset|Hset].
  - unfold DeviceAPI.setVariable in Hset.
    destruct (reserved name) eqn:Hname.
    { injection Hset as <-. reflexivity. }
    unfold curve_write, Curve.setAgentVariable in Hset.
    destruct (Curve.write T 1 name _ v (thread_index thread) 0 (curve d))
      as [c|] eqn:Hw; [|discriminate].
    injection Hset as <-. eapply Hwrite; eauto.
  - unfold DeviceAPI.setVariable_array in Hset.
    destruct (reserved name) eqn:Hname.
    { injection Hset as <-. reflexivity. }
    unfold curve_write, Curve.setAgentArrayVariable in Hset.
    destruct (Curve.write T N name _ v (thread_index thread) array_index
                (curve d)) as [c|] eqn:Hw; [|discriminate].
    injection Hset as <-. eapply Hwrite; eauto.
Qed.

Lemma setVariable_keeps_id_witness :
  match DeviceAPI.setVariable (Fixture2.thread 1) byte Fixture.api "x" x2a
          Fixture2.device with
  | Some (_, d') => fst <$> ReadOnlyDeviceAPI.getID (Fixture2.thread 1)
                              Fixture.api d'
  | None => None
  end = Some 12.
Proof.
  destruct (DeviceAPI.setVariable (Fixture2.thread 1) byte Fixture.api "x" x2a
              Fixture2.device) as [[[] d']|] eqn:Hset.
  - rewrite (setVariable_keeps_id (Fixture2.thread 1) byte 1 Fixture.api "x" 0
               x2a Fixture2.device d' (or_introl Hset)).
    vm_compute. reflexivity.
  - vm_compute in Hset. discriminate Hset.
Defined.

(** ** Ids of output agents *)

Lemma getID_fresh `{Build} thread aoh d :
  aoh <> 0 ->
  Curve.registered 4 1 "_id" aoh (thread_index thread) 0 (curve d) ->
  (Z.to_nat (thread_index thread) < length (scan_flag_agentOutput d))%nat ->
  exists c,
    Curve.write Z 1 "_id" aoh (agent_output_nextID d) (thread_index thread) 0
      (curve d) = Some c
    /\ DeviceAPI.AgentOut.getID thread (DeviceAPI.AgentOut.construct aoh) d
       = Some ((agent_output_nextID d,
                DeviceAPI.AgentOut.Out aoh (agent_output_nextID d)),
               set_scan_flag
                 (<[Z.to_nat (thread_index thread) := 1]>
                    (scan_flag_agentOutput d))
                 (set_curve c
                    (set_nextID
                       (snd (atomicInc (agent_output_nextID d) UINT_MAX)) d))).
Proof.
  intros Hon Hreg Hslot.
  set (this := DeviceAPI.AgentOut.construct aoh).
  destruct (GenIDFacts.genID_fresh thread this d eq_refl Hreg Hslot)
    as (c & Hw & Hgen).
  change (DeviceAPI.AgentOut.agent_output_hash this) with aoh in Hw, Hgen.
  exists c. split; [exact Hw|].
  unfold DeviceAPI.AgentOut.getID.
  change (DeviceAPI.AgentOut.agent_output_hash this) with aoh.
  destruct (Z.eqb_spec aoh 0) as [|_]; [contradiction|]. cbn [negb].
  unfold mbind, dev_bind. rewrite Hgen. reflexivity.
Qed.

(** X12.  Threads that ask for the id of their output agent, each on a
    new accessor and in whatever order, are given consecutive ids from the
    counter's value on, so no two of them the same; the counter ends
    behind the last id and the scan flag of each of them is 1.  The
    counter must not reach [UINT_MAX] on the way. *)
Theorem output_ids_are_consecutive `{Build} (aoh : Curve.NamespaceHash)
    (threads : list Thread) (d : Device) :
  aoh <> 0 ->
  Forall (fun t =>
            Curve.registered 4 1 "_id" aoh (thread_index t) 0 (curve d)
            /\ (Z.to_nat (thread_index t)
                < length (scan_flag_agentOutput d))%nat) threads ->
  0 <= agent_output_nextID d ->
  agent_output_nextID d + Z.of_nat (length threads) <= UINT_MAX ->
  exists d',
    getID_each aoh threads d
    = Some (seqZ (agent_output_nextID d) (Z.of_nat (length threads)), d')
    /\ NoDup (seqZ (agent_output_nextID d) (Z.of_nat (length threads)))
    /\ agent_output_nextID d'
       = agent_output_nextID d + Z.of_nat (length threads)
    /\ Forall (fun t =>
                 scan_flag_agentOutput d' !! Z.to_nat (thread_index t)
                 = Some 1) threads
    /\ (forall p, scan_flag_agentOutput d !! p = Some 1 ->
                  scan_flag_agentOutput d' !! p = Some 1)
    /\ error_buffer d' = error_buffer d.
Proof.
  intros Hon. revert d.
  induction threads as [|t threads IH]; intros d Hall Hpos Hmax.
  - exists d. cbn [getID_each length Z.of_nat]. rewrite Z.add_0_r.
    repeat split; auto. apply NoDup_seqZ.
  - apply Forall_cons in Hall as [[Hreg Hslot] Hall].
    cbn [length] in Hmax |- *. rewrite Nat2Z.inj_succ in Hmax |- *.
    destruct (getID_fresh t aoh d Hon Hreg Hslot) as (c & Hw & Hget).
    rewrite atomicInc_below in Hget by lia. cbn [snd] in Hget.
    set (d1 := set_scan_flag
                 (<[Z.to_nat (thread_index t) := 1]> (scan_flag_agentOutput d))
                 (set_curve c (set_nextID (agent_output_nextID d + 1) d)))
      in *.
    destruct (IH d1) as (d' & Hrest & _ & Hnext & Hflags & Hkept & Herr).
    { eapply Forall_impl; [exact Hall|]. intros t' [Hreg' Hslot'].
      unfold d1. cbn [curve scan_flag_agentOutput set_scan_flag set_curve].
      rewrite length_insert. split; [|exact Hslot'].
      eapply (CurveFacts.write_keeps_registered Z); eauto. }
    { unfold d1. cbn [agent_output_nextID set_scan_flag set_curve set_nextID].
      lia. }
    { unfold d1. cbn [agent_output_nextID set_scan_flag set_curve set_nextID].
      lia. }
    assert (Hn1 : agent_output_nextID d1 = agent_output_nextID d + 1)
      by reflexivity.
    rewrite Hn1 in Hrest, Hnext.
    exists d'. split; [|split; [apply NoDup_seqZ|split; [lia|split; [|split]]]].
    + cbn [getID_each]. unfold mbind at 1, dev_bind at 1. rewrite Hget.
      unfold mbind at 1, dev_bind at 1. rewrite Hrest.
      unfold mret, dev_ret. cbn [fst].
      rewrite (seqZ_cons (agent_output_nextID d)) by lia.
      replace (Z.succ (agent_output_nextID d))
        with (agent_output_nextID d + 1) by lia.
      replace (Z.pred (Z.succ (Z.of_nat (length threads))))
        with (Z.of_nat (length threads)) by lia.
      reflexivity.
    + apply Forall_cons. split; [|exact Hflags].
      apply Hkept. unfold d1. cbn [scan_flag_agentOutput set_scan_flag].
      apply list_lookup_insert_eq. exact Hslot.
    + intros p Hp. apply Hkept. unfold d1.
      cbn [scan_flag_agentOutput set_scan_flag].
      destruct (decide (Z.to_nat (thread_index t) = p)) as [<-|Hne].
      * apply list_lookup_insert_eq. exact Hslot.
      * rewrite list_lookup_insert_ne by exact Hne. exact Hp.
    + rewrite Herr. reflexivity.
Qed.

Lemma registered_fixture2_id (i : Z) :
  0 <= i < 3 ->
  Curve.registered 4 1 "_id" 9 (thread_index (Fixture2.thread i)) 0
    (curve Fixture2.device)
  /\ (Z.to_nat (thread_index (Fixture2.thread i))
      < length (scan_flag_agentOutput Fixture2.device))%nat.
Proof.
  intros Hi.
  assert (Hidx : thread_index (Fixture2.thread i) = i).
  { unfold thread_index, Fixture2.thread. cbn [blockDim blockIdx threadIdx x3].
    rewrite Z.mul_0_r. change (to_uint 0) with 0. rewrite Z.add_0_l.
    apply to_uint_small. lia. }
  rewrite Hidx. split.
  - exists (Curve.Binding 4 1 (replicate 3 (encode_u32 0))).
    split; [vm_compute; reflexivity|].
    repeat split; try reflexivity; try lia.
    unfold Curve.cell. cbn [Curve.buffer length replicate]. lia.
  - cbn [Fixture2.device scan_flag_agentOutput length]. lia.
Defined.

Lemma output_ids_are_consecutive_witness :
  fst <$> @getID_each Fixture.build 9
            [Fixture2.thread 2; Fixture2.thread 0; Fixture2.thread 1]
            Fixture2.device
  = Some [5; 6; 7].
Proof.
  destruct (@output_ids_are_consecutive Fixture.build 9
              [Fixture2.thread 2; Fixture2.thread 0; Fixture2.thread 1]
              Fixture2.device) as (d' & Hids & _).
  - discriminate.
  - repeat (apply Forall_cons; split;
            [apply registered_fixture2_id; lia|]).
    apply Forall_nil. exact I.
  - cbn. lia.
  - cbn. unfold UINT_MAX. lia.
  - rewrite Hids. reflexivity.
Defined.

(** ** The accessors with the checks compiled out *)

(** X13.  With [NO_SEATBELTS] defined, [at] and [operator()] check
    nothing: for every index and radius they return the handle or filter
    and leave the device as it is; reading a field through a handle beyond
    the list then answers the zero of the type, again without a trace. *)
Theorem unchecked_access_is_silent `{Build} (thread : Thread) (T : Type)
    `{DeviceType T} (this : MsgArray.In.t) (index x radius : Z)
    (name : string) (d : Device) :
  NO_SEATBELTS = true ->
  MsgArray.In_at thread this index d
  = Some (MsgArray.Message.Make this index, d)
  /\ MsgArray.In.call thread this x radius d
     = Some (MsgArray.In.Filter.construct (MsgArray.In.length this)
               (MsgArray.In.combined_hash this) x radius, d)
  /\ (MsgArray.In.length this <= index ->
      (h ← MsgArray.In_at thread this index;
       MsgArray.Message.getVariable T h name) d
      = Some (zero_value T, d)).
Proof.
  intros Hoff.
  assert (Hat : MsgArray.In_at thread this index d
                = Some (MsgArray.Message.Make this index, d)).
  { unfold MsgArray.In_at. rewrite Hoff. reflexivity. }
  split; [exact Hat|]. split.
  - unfold MsgArray.In.call. rewrite Hoff. reflexivity.
  - intros Hout. unfold mbind, dev_bind. rewrite Hat.
    unfold MsgArray.Message.getVariable.
    cbn [MsgArray.Message.index MsgArray.Message._parent].
    destruct (Z.ltb_spec index (MsgArray.In.length this)); [lia|].
    reflexivity.
Qed.

Lemma unchecked_access_is_silent_witness :
  @MsgArray.In_at Fixture2.unchecked (Fixture2.thread 0) Fixture.message_in 12
    Fixture2.device
  = Some (MsgArray.Message.Make Fixture.message_in 12, Fixture2.device).
Proof.
  apply (@unchecked_access_is_silent Fixture2.unchecked (Fixture2.thread 0)
           byte _ Fixture.message_in 12 0 0 "x" Fixture2.device).
  reflexivity.
Defined.

(** X14.  When agent output is not enabled and the report is compiled out
    ([SEATBELTS] defined as 0, or [NO_SEATBELTS] defined, which empties
    [DTHROW]), the calls on the output accessor do nothing at all:
    [setVariable] returns, and [getID] answers [ID_NOT_SET]. *)
Theorem disabled_agent_output_unchecked_is_silent `{Build} (thread : Thread)
    (T : Type) `{DeviceType T} (N : nat) (this : DeviceAPI.AgentOut.t)
    (name : string) (array_index : Z) (v : T) (d : Device) :
  DeviceAPI.AgentOut.agent_output_hash this = 0 ->
  SEATBELTS = false \/ NO_SEATBELTS = true ->
  DeviceAPI.AgentOut.setVariable thread T this name v d = Some (this, d)
  /\ DeviceAPI.AgentOut.setVariable_array thread T N this name array_index v d
     = Some (this, d)
  /\ DeviceAPI.AgentOut.getID thread this d = Some ((ID_NOT_SET, this), d).
Proof.
  intros Hoff Hbuild.
  unfold DeviceAPI.AgentOut.setVariable, DeviceAPI.AgentOut.setVariable_array,
    DeviceAPI.AgentOut.getID.
  rewrite Hoff. cbn [Z.eqb negb]. unfold mbind, dev_bind, DTHROW.
  destruct Hbuild as [-> | ->]; [repeat split|].
  destruct SEATBELTS; repeat split.
Qed.

Lemma disabled_agent_output_unchecked_is_silent_witness :
  @DeviceAPI.AgentOut.getID Fixture2.unchecked (Fixture2.thread 0)
    Fixture.agent_out_disabled Fixture2.device
  = Some ((0, Fixture.agent_out_disabled), Fixture2.device).
Proof.
  apply (@disabled_agent_output_unchecked_is_silent Fixture2.unchecked
           (Fixture2.thread 0) byte _ 1 Fixture.agent_out_disabled "x" 0 x2a
           Fixture2.device).
  - reflexivity.
  - left. reflexivity.
Defined.

(** ** Bins of the neighbourhood *)

(** X15.  [getX()] wraps round the ends of the list: for an origin inside
    the list and a relative cell of at most one list length either way,
    the bin is [loc + relative] brought back into [0, length) by one
    [length]; the sum must fit 32 bits. *)
Theorem getX_wraps_around (m : MsgArray.In.Filter.Message.t) :
  let f := MsgArray.In.Filter.Message._parent m in
  let L := MsgArray.In.Filter.length f in
  let a := MsgArray.In.Filter.loc f
           + MsgArray.In.Filter.Message.relative_cell m in
  0 < L ->
  0 <= MsgArray.In.Filter.loc f < L ->
  - L <= MsgArray.In.Filter.Message.relative_cell m <= L ->
  a + L < 2 ^ 32 ->
  0 <= MsgArray.In.Filter.Message.getX m < L
  /\ MsgArray.In.Filter.Message.getX m
     = (if a <? 0 then a + L else if L <=? a then a - L else a).
Proof.
  intros f L a HL Hloc Hrel Hfit.
  unfold MsgArray.In.Filter.Message.getX, MsgArray.In.Filter.Message.wrap.
  fold f. fold L.
  rewrite to_uint_add_r, to_uint_add_l. fold a.
  rewrite to_uint_small by (unfold a; lia).
  split; [apply Z.mod_pos_bound; exact HL|].
  destruct (Z.ltb_spec a 0) as [Hneg|Hpos].
  - apply Z.mod_small. unfold a in *. lia.
  - destruct (Z.leb_spec L a) as [Hbig|Hin].
    + replace (a + L) with (a - L + 2 * L) by lia.
      rewrite Z_mod_plus_full. apply Z.mod_small. unfold a in *. lia.
    + replace (a + L) with (a + 1 * L) by lia.
      rewrite Z_mod_plus_full. apply Z.mod_small. lia.
Qed.

Lemma getX_wraps_around_witness :
  MsgArray.In.Filter.Message.getX
    (MsgArray.In.Filter.Message.Make (MsgArray.In.Filter.construct 10 7 0 2)
       (-2) 0) = 8.
Proof.
  destruct (getX_wraps_around
              (MsgArray.In.Filter.Message.Make
                 (MsgArray.In.Filter.construct 10 7 0 2) (-2) 0))
    as [_ Hbin]; cbn; try lia.
  exact Hbin.
Defined.

(** ** Fields of an output agent *)



